(** * Pachislo game simulator: a shallow embedding of [src/pachislo.ts]

    The development follows the layout of the TypeScript file: one module per
    class (configuration, game state, lottery, slot producer, game), each
    definition transcribed from the method of the same name.

    Modelling conventions.
    - A [number] that counts balls is an integer ([Z]); a [number] that is a
      probability, or a value returned by [Math.random()], is an exact
      rational ([Q]).  Rounding of IEEE doubles is outside the model.
    - [throw] is a [Throw] result; mutations made before the [throw] are kept
      in the state that is returned with it.
    - [Math.random()] is a fixed sequence [random : nat -> Q]; the number of
      values consumed so far is threaded through the code.
    - A JavaScript array of [T] is a [list (option T)], [None] standing for
      [undefined].
    - The [UserOutput] collaborator is the list of notifications it received.
    - [console.log] / [console.warn] are not modelled. *)

From Stdlib Require Import ZArith QArith Qround Qpower.
From stdpp Require Import base tactics option list strings.

Local Open Scope Z_scope.

(* ====================================================================== *)
(** * Errors and results *)
(* ====================================================================== *)

Inductive Error : Type :=
| ConfigError (errors : list string)
| UninitializedError
| AlreadyStartedError
| ProbabilityError
| RangeError
| PlainError (message : string).

Inductive Result (A : Type) : Type :=
| Ok (a : A)
| Throw (e : Error).
Arguments Ok {A} a.
Arguments Throw {A} e.

(** [a < b] on rationals, as a boolean. *)
Definition Qltb (a b : Q) : bool := negb (Qle_bool b a).

(* ====================================================================== *)
(** * Config module *)
(* ====================================================================== *)

(** [if (errors.length > 0) throw new ConfigError(errors);] *)
Definition throwIfAny (errors : list string) : Result unit :=
  if (0 <? Z.of_nat (length errors)) then Throw (ConfigError errors) else Ok tt.

(** [try { x.validate() } catch (e) { if (e instanceof ConfigError) errors.push(...e.errors) }] *)
Definition caughtErrors (r : Result unit) : list string :=
  match r with
  | Throw (ConfigError errors) => errors
  | _ => []
  end.

Module BallsConfig.
Record t : Type := mk {
  initBalls : Z;
  incrementalBalls : Z;
  incrementalRush : Z
}.

Definition validate (c : t) : Result unit :=
  let errors :=
    if initBalls c <? 1 then ["initial balls must be greater than 0"%string] else [] in
  throwIfAny errors.
End BallsConfig.

Module SlotProbability.
Record t : Type := mk {
  win : Q;
  fakeWin : Q;
  fakeLose : Q
}.

Definition outOfRange (p : Q) : bool := Qltb p 0 || Qltb 1 p.

Definition validate (p : t) : Result unit :=
  let e1 := if outOfRange (win p)
            then ["win probability must be between 0.0 and 1.0"%string] else [] in
  let e2 := if outOfRange (fakeWin p)
            then ["fake_win probability must be between 0.0 and 1.0"%string] else [] in
  let e3 := if outOfRange (fakeLose p)
            then ["fake_lose probability must be between 0.0 and 1.0"%string] else [] in
  throwIfAny (e1 ++ e2 ++ e3).
End SlotProbability.

(** [RushContinueFunction = (n: number) => number] *)
Definition RushContinueFunction : Type := Z -> Q.

Module Probability.
Record t : Type := mk {
  normal : SlotProbability.t;
  rush : SlotProbability.t;
  rushContinue : SlotProbability.t;
  rushContinueFn : RushContinueFunction
}.

Definition validate (p : t) : Result unit :=
  throwIfAny (caughtErrors (SlotProbability.validate (normal p))
              ++ caughtErrors (SlotProbability.validate (rush p))
              ++ caughtErrors (SlotProbability.validate (rushContinue p))).
End Probability.

Module Config.
Record t : Type := mk {
  balls : BallsConfig.t;
  probability : Probability.t
}.

Definition validate (c : t) : Result unit :=
  throwIfAny (caughtErrors (BallsConfig.validate (balls c))
              ++ caughtErrors (Probability.validate (probability c))).
End Config.

(* ====================================================================== *)
(** * Game state module *)
(* ====================================================================== *)

Inductive GameStateType : Type :=
| Uninitialized
| Normal (balls : Z)
| Rush (balls rushBalls n : Z).

Module GameState.
Definition isUninitialized (state : GameStateType) : bool :=
  match state with Uninitialized => true | _ => false end.

Definition isRush (state : GameStateType) : bool :=
  match state with Rush _ _ _ => true | _ => false end.

Definition launchBall (state : GameStateType) : Result GameStateType :=
  match state with
  | Uninitialized => Throw UninitializedError
  | Normal balls =>
      let newBalls := balls - 1 in
      if newBalls =? 0 then Ok Uninitialized else Ok (Normal newBalls)
  | Rush balls rushBalls n =>
      let newRushBalls := rushBalls - 1 in
      if newRushBalls =? 0 then Ok (Normal balls)
      else Ok (Rush balls newRushBalls n)
  end.

Definition init (state : GameStateType) (config : BallsConfig.t)
  : Result GameStateType :=
  if isUninitialized state
  then Ok (Normal (BallsConfig.initBalls config))
  else Throw AlreadyStartedError.

Definition incrementBalls (state : GameStateType) (config : BallsConfig.t)
  : Result GameStateType :=
  match state with
  | Uninitialized =>
      Throw (PlainError "Cannot increment balls in uninitialized state")
  | Normal balls => Ok (Normal (balls + BallsConfig.incrementalBalls config))
  | Rush balls rushBalls n =>
      Ok (Rush (balls + BallsConfig.incrementalBalls config) rushBalls n)
  end.

Definition triggerRush (state : GameStateType) (config : BallsConfig.t)
  : Result GameStateType :=
  match state with
  | Uninitialized =>
      Throw (PlainError "Cannot trigger rush in uninitialized state")
  | Normal balls =>
      Ok (Rush (balls + BallsConfig.incrementalBalls config)
               (BallsConfig.incrementalRush config)
               1)
  | Rush balls rushBalls n =>
      Ok (Rush (balls + BallsConfig.incrementalBalls config)
               (rushBalls + BallsConfig.incrementalRush config)
               (n + 1))
  end.
End GameState.

(** [Transition(before: GameStateType | null, after: GameStateType)] *)
Record Transition : Type := mkTransition {
  before : option GameStateType;
  after : GameStateType
}.

(** The four state-machine operations, as data, and the states they reach. *)
Inductive StateOp : Type := OpInit | OpLaunchBall | OpIncrementBalls | OpTriggerRush.

Definition applyOp (config : BallsConfig.t) (op : StateOp) (state : GameStateType)
  : Result GameStateType :=
  match op with
  | OpInit => GameState.init state config
  | OpLaunchBall => GameState.launchBall state
  | OpIncrementBalls => GameState.incrementBalls state config
  | OpTriggerRush => GameState.triggerRush state config
  end.

(** Runs the operations in order from [state]; stops at the first that throws. *)
Fixpoint applyOps (config : BallsConfig.t) (ops : list StateOp) (state : GameStateType)
  : Result GameStateType :=
  match ops with
  | [] => Ok state
  | op :: rest =>
      match applyOp config op state with
      | Ok state' => applyOps config rest state'
      | Throw e => Throw e
      end
  end.

(** The numeric fields of a state are not negative; the streak is at least 1. *)
Definition fieldsNonNegative (state : GameStateType) : Prop :=
  match state with
  | Uninitialized => True
  | Normal balls => 0 <= balls
  | Rush balls rushBalls n => 0 <= balls /\ 0 <= rushBalls /\ 1 <= n
  end.

(** What holds of the states of a running session when the balls economy
    only ever adds balls. *)
Definition sessionInvariant (state : GameStateType) : Prop :=
  match state with
  | Uninitialized => True
  | Normal balls => 1 <= balls
  | Rush balls rushBalls n => 1 <= balls /\ 1 <= rushBalls /\ 1 <= n
  end.

(* ====================================================================== *)
(** * Effects: state threading with exceptions *)
(* ====================================================================== *)

(** A computation over a mutable state [S] that returns a value or throws;
    either way the state it leaves behind is returned. *)
Definition Eff (S A : Type) : Type := S -> Result A * S.

Definition effRet {S A} (a : A) : Eff S A := fun s => (Ok a, s).

Definition effBind {S A B} (f : A -> Eff S B) (m : Eff S A) : Eff S B :=
  fun s =>
    match m s with
    | (Ok a, s') => f a s'
    | (Throw e, s') => (Throw e, s')
    end.

#[global] Instance Eff_ret {S} : MRet (Eff S) := @effRet S.
#[global] Instance Eff_bind {S} : MBind (Eff S) := @effBind S.

Definition throw {S A} (e : Error) : Eff S A := fun s => (Throw e, s).

(** [try { body } catch (error) { handler }] *)
Definition tryCatch {S A} (body : Eff S A) (handler : Error -> Eff S A) : Eff S A :=
  fun s =>
    match body s with
    | (Ok a, s') => (Ok a, s')
    | (Throw e, s') => handler e s'
    end.

Definition getS {S} : Eff S S := fun s => (Ok s, s).
Definition modifyS {S} (f : S -> S) : Eff S unit := fun s => (Ok tt, f s).

(** Lifts the result of a pure, fallible function. *)
Definition liftResult {S A} (r : Result A) : Eff S A := fun s => (r, s).

(** Runs a computation over a component [T] of the state [S]. *)
Definition zoom {S T A} (get : S -> T) (set : T -> S -> S) (m : Eff T A) : Eff S A :=
  fun s => let '(r, t') := m (get s) in (r, set t' s).

(** [m] returns a value from every state. *)
Definition returns {S A} (m : Eff S A) : Prop :=
  forall s, exists a s', m s = (Ok a, s').

(** Whatever [m] does, returning or throwing, the state it leaves is related
    by [R] to the state it was started in. *)
Definition preserves {S} (R : S -> S -> Prop) {A} (m : Eff S A) : Prop :=
  forall s, R s (m s).2.

(* ====================================================================== *)
(** * Lottery module *)
(* ====================================================================== *)

Module Win.
Inductive t : Type := Default | FakeWin.
End Win.

Module Lose.
Inductive t : Type := Default | FakeLose.
End Lose.

Module LotteryResult.
Inductive t : Type :=
| Win (winType : Win.t)
| Lose (loseType : Lose.t).

Definition isWin (result : t) : bool :=
  match result with Win _ => true | Lose _ => false end.
End LotteryResult.
Abbreviation LotteryResultType := LotteryResult.t.

(** The state of the random source: how many values have been drawn. *)
Definition Rand (A : Type) : Type := Eff nat A.

Module Lottery.
Section WithRandom.
Variable random : nat -> Q.

(** [Math.random()] *)
Definition mathRandom : Rand Q := fun drawn => (Ok (random drawn), S drawn).

Definition lottery (slotProbability : SlotProbability.t) : Rand LotteryResultType :=
  let win := SlotProbability.win slotProbability in
  let fakeWin := SlotProbability.fakeWin slotProbability in
  let fakeLose := SlotProbability.fakeLose slotProbability in
  r ← mathRandom;
  if Qltb r win then
    r' ← mathRandom;
    mret (if Qltb r' fakeWin
          then LotteryResult.Win Win.FakeWin
          else LotteryResult.Win Win.Default)
  else
    r' ← mathRandom;
    mret (if Qltb r' fakeLose
          then LotteryResult.Lose Lose.FakeLose
          else LotteryResult.Lose Lose.Default).

Definition lotteryNormal (probability : Probability.t) : Rand LotteryResultType :=
  lottery (Probability.normal probability).

Definition lotteryRush (probability : Probability.t) : Rand LotteryResultType :=
  lottery (Probability.rush probability).

Definition lotteryRushContinue (probability : Probability.t) (n : Z)
  : Rand LotteryResultType :=
  let probabilityValues := Probability.rushContinue probability in
  let adjustedWin :=
    (SlotProbability.win probabilityValues
     * Probability.rushContinueFn probability n)%Q in
  if Qltb 1 adjustedWin then throw ProbabilityError
  else
    let adjustedProbability :=
      SlotProbability.mk adjustedWin
                         (SlotProbability.fakeWin probabilityValues)
                         (SlotProbability.fakeLose probabilityValues) in
    lottery adjustedProbability.
End WithRandom.
End Lottery.

(* ====================================================================== *)
(** * Slot module *)
(* ====================================================================== *)

(** A JavaScript array: a cell is [None] when it holds [undefined]. *)
Abbreviation JsArray T := (list (option T)).

(** [array[i]] as an expression: [undefined] outside the array. *)
Definition jsGet {T} (array : JsArray T) (i : Z) : option T :=
  if i <? 0 then None
  else match array !! Z.to_nat i with
       | Some cell => cell
       | None => None
       end.

(** [array[i] = v]: in range it overwrites; past the end it extends the array
    with holes; a negative [i] names a property, not an element. *)
Definition jsSet {T} (array : JsArray T) (i : Z) (v : option T) : JsArray T :=
  if i <? 0 then array
  else if i <? Z.of_nat (length array) then <[Z.to_nat i := v]> array
  else array ++ replicate (Z.to_nat i - length array) None ++ [v].

(** [array.slice(start, end)] *)
Definition jsSlice {T} (array : JsArray T) (start end_ : Z) : JsArray T :=
  let len := Z.of_nat (length array) in
  let clamp k := if k <? 0 then Z.max (len + k) 0 else Z.min k len in
  let from := clamp start in
  let to := clamp end_ in
  take (Z.to_nat (to - from)) (drop (Z.to_nat from) array).

Abbreviation SlotSymbol := Z.
Abbreviation SlotResult := (JsArray SlotSymbol).
Abbreviation SlotOutput := (SlotResult * option SlotResult)%type.

Module SlotProducer.
Record t : Type := mk {
  length_ : Z;
  choices : list SlotSymbol
}.

(** The constructor. *)
Definition new (length : Z) (choices : list SlotSymbol) : Result t :=
  if Z.of_nat (List.length choices) <? 2
  then Throw (PlainError "Choices must have at least two elements")
  else Ok (mk length choices).

Section WithRandom.
Variable random : nat -> Q.

(** [Math.floor(Math.random() * k)] *)
Definition floorRandomTimes (k : Z) : Rand Z :=
  r ← Lottery.mathRandom random;
  mret (Qfloor (r * inject_Z k)).

(** The loop of [shuffleArray], entered with the loop variable at [i]:
    [for (; i > 0; i--) { j = floor(random() * (i + 1)); swap(i, j) }]. *)
Fixpoint shuffleFrom {T} (i : nat) (array : JsArray T) : Rand (JsArray T) :=
  match i with
  | O => mret array
  | S i' =>
      j ← floorRandomTimes (Z.of_nat i + 1);
      let ai := jsGet array (Z.of_nat i) in
      let aj := jsGet array j in
      shuffleFrom i' (jsSet (jsSet array (Z.of_nat i) aj) j ai)
  end.

Definition shuffleArray {T} (array : JsArray T) : Rand (JsArray T) :=
  shuffleFrom (length array - 1)%nat array.

(** [for (let i = 0; i < cnt; i++) result.push(from[floor(random() * from.length)])],
    with [cnt] iterations left and [result] built so far. *)
Fixpoint pushRandom {T} (cnt : nat) (from : JsArray T) (result : JsArray T)
  : Rand (JsArray T) :=
  match cnt with
  | O => mret result
  | S cnt' =>
      k ← floorRandomTimes (Z.of_nat (length from));
      pushRandom cnt' from (result ++ [jsGet from k])
  end.

Definition produceWin (self : t) : Rand SlotResult :=
  k ← floorRandomTimes (Z.of_nat (length (choices self)));
  let choice := jsGet (Some <$> choices self) k in
  if length_ self <? 0 then throw RangeError
  else mret (replicate (Z.to_nat (length_ self)) choice).

Definition produceLose (self : t) : Rand SlotResult :=
  refChoices ← shuffleArray (Some <$> choices self);
  p ← floorRandomTimes (Z.of_nat (length refChoices) - 1);
  let partition := p + 1 in
  let choices1 := jsSlice refChoices 0 partition in
  let choices2 := jsSlice refChoices partition (Z.of_nat (length refChoices)) in
  c ← floorRandomTimes (length_ self - 1);
  let cnt1 := c + 1 in
  let cnt2 := length_ self - cnt1 in
  result1 ← pushRandom (Z.to_nat cnt1) choices1 [];
  result2 ← pushRandom (Z.to_nat cnt2) choices2 [];
  shuffleArray (result1 ++ result2).

Definition produceFakeLose (self : t) : Rand SlotResult :=
  let choices := Some <$> choices self in
  let len := Z.of_nat (length choices) in
  choiceIndex ← floorRandomTimes len;
  r ← Lottery.mathRandom random;
  let shifted := Z.rem (choiceIndex + (if Qltb r (1 # 2) then -1 else 1) + len) len in
  mret [jsGet choices choiceIndex; jsGet choices shifted; jsGet choices choiceIndex].

Definition produce (self : t) (lotteryResult : LotteryResultType) : Rand SlotOutput :=
  match lotteryResult with
  | LotteryResult.Win Win.Default =>
      w ← produceWin self; mret (w, None)
  | LotteryResult.Win Win.FakeWin =>
      f ← produceFakeLose self; w ← produceWin self; mret (f, Some w)
  | LotteryResult.Lose Lose.Default =>
      l ← produceLose self; mret (l, None)
  | LotteryResult.Lose Lose.FakeLose =>
      f ← produceFakeLose self; mret (f, None)
  end.
End WithRandom.
End SlotProducer.

(* ====================================================================== *)
(** * Command module *)
(* ====================================================================== *)

(** The classes that implement [GameCommand]. *)
Inductive GameCommand : Type :=
| LaunchBall
| CauseLottery
| StartGame
| FinishGameCommandImpl
| LaunchBallFlow (isLottery : bool).

(** [CommandType = ControlCommand | FinishGameCommand | string] *)
Inductive CommandType : Type :=
| Control (command : GameCommand)
| FinishGameObject
| CommandString (s : string).

Module Command.
Definition FinishGame : CommandType := CommandString "FinishGame".
End Command.

Module LaunchBallFlowProducer.
Record t : Type := mk { startHoleProbability : Q }.

(** The constructor. *)
Definition new (startHoleProbability : Q) : Result t :=
  if Qltb startHoleProbability 0 || Qltb 1 startHoleProbability
  then Throw (PlainError "start_hole_probability must be between 0.0 and 1.0")
  else Ok (mk startHoleProbability).

Definition produce (random : nat -> Q) (self : t) : Rand GameCommand :=
  r ← Lottery.mathRandom random;
  mret (LaunchBallFlow (Qltb r (startHoleProbability self))).
End LaunchBallFlowProducer.

Inductive StepResult : Type := Continue | Break.

(* ====================================================================== *)
(** * Interface module *)
(* ====================================================================== *)

(** [UserInput]: an object of type [I] that hands out the next command. *)
Class UserInput (I : Type) : Type :=
  waitForInput : I -> option CommandType * I.

Module JsInput.
Record t : Type := mk {
  commands : list CommandType;
  currentIndex : nat
}.

Definition addCommand (command : CommandType) (self : t) : t :=
  mk (commands self ++ [command]) (currentIndex self).

Definition waitForInput (self : t) : option CommandType * t :=
  match commands self !! currentIndex self with
  | Some command => (Some command, mk (commands self) (S (currentIndex self)))
  | None => (None, self)
  end.

Definition reset (self : t) : t := mk [] 0%nat.
End JsInput.

#[global] Instance JsInput_UserInput : UserInput JsInput.t := JsInput.waitForInput.

(** The calls a [UserOutput] receives. *)
Inductive Notification : Type :=
| OutDefault (transition : Transition)
| OutFinishGame (state : GameStateType)
| OutStartGame (state : GameStateType)
| OutLotteryNormal (result : LotteryResultType) (slot : SlotOutput)
| OutLotteryRush (result : LotteryResultType) (slot : SlotOutput)
| OutLotteryRushContinue (result : LotteryResultType) (slot : SlotOutput).

(* ====================================================================== *)
(** * Game module *)
(* ====================================================================== *)

Module Game.
Section WithRandom.
Variable random : nat -> Q.
Context {I : Type} {inputI : UserInput I}.

(** The fields of [Game], the notifications sent to [output] so far, and
    the number of [Math.random()] values drawn so far. *)
Record t : Type := mk {
  beforeState : option GameStateType;
  state : GameStateType;
  lottery : Probability.t;
  config : BallsConfig.t;
  isSlotSpinning : bool;
  input : I;
  output : list Notification;
  drawn : nat
}.

(** [private readonly slotProducer = new SlotProducer(3, [1, ..., 9])]:
    the same in every game, so a constant rather than a field. *)
Definition slotProducer : SlotProducer.t :=
  SlotProducer.mk 3 [1; 2; 3; 4; 5; 6; 7; 8; 9].

Definition withBeforeState (v : option GameStateType) (g : t) : t :=
  mk v (state g) (lottery g) (config g) (isSlotSpinning g)
     (input g) (output g) (drawn g).
Definition withState (v : GameStateType) (g : t) : t :=
  mk (beforeState g) v (lottery g) (config g) (isSlotSpinning g)
     (input g) (output g) (drawn g).
Definition withSlotSpinning (v : bool) (g : t) : t :=
  mk (beforeState g) (state g) (lottery g) (config g) v
     (input g) (output g) (drawn g).
Definition withInput (v : I) (g : t) : t :=
  mk (beforeState g) (state g) (lottery g) (config g)
     (isSlotSpinning g) v (output g) (drawn g).
Definition withOutput (v : list Notification) (g : t) : t :=
  mk (beforeState g) (state g) (lottery g) (config g)
     (isSlotSpinning g) (input g) v (drawn g).
Definition withDrawn (v : nat) (g : t) : t :=
  mk (beforeState g) (state g) (lottery g) (config g)
     (isSlotSpinning g) (input g) (output g) v.

(** A call of a method of [this.output]. *)
Definition notify (n : Notification) : Eff t unit :=
  modifyS (fun g => withOutput (output g ++ [n]) g).

(** A computation that draws random numbers, run inside the game. *)
Definition drawing {A} (m : Rand A) : Eff t A := zoom drawn withDrawn m.

(** The constructor: field initialisers, then the body. *)
Definition new (config : Config.t) (input : I) : Result t :=
  match SlotProducer.new 3 [1; 2; 3; 4; 5; 6; 7; 8; 9] with
  | Throw e => Throw e
  | Ok _ =>
      match Config.validate config with
      | Throw e => Throw e
      | Ok _ =>
          Ok (mk None Uninitialized (Config.probability config) (Config.balls config)
                 false input [] 0%nat)
      end
  end.

Definition start : Eff t unit :=
  g ← getS;
  s ← liftResult (GameState.init (state g) (config g));
  modifyS (withState s);;
  notify (OutStartGame s).

Definition finish : Eff t unit :=
  g ← getS;
  if GameState.isUninitialized (state g) then throw UninitializedError
  else
    notify (OutFinishGame (state g));;
    modifyS (withState Uninitialized).

Definition launchBall : Eff t unit :=
  g ← getS;
  if isSlotSpinning g
  then throw (PlainError "Cannot launch ball while slot is spinning")
  else
    s ← liftResult (GameState.launchBall (state g));
    modifyS (withState s).

Definition setSlotSpinning (spinning : bool) : Eff t unit :=
  modifyS (withSlotSpinning spinning).

Definition causeLottery : Eff t unit :=
  setSlotSpinning true;;
  g ← getS;
  result ←
    (if GameState.isRush (state g) then
       result ← drawing (Lottery.lotteryRush random (lottery g));
       slotResult ← drawing (SlotProducer.produce random slotProducer result);
       notify (OutLotteryRush result slotResult);;
       mret result
     else
       result ← drawing (Lottery.lotteryNormal random (lottery g));
       slotResult ← drawing (SlotProducer.produce random slotProducer result);
       notify (OutLotteryNormal result slotResult);;
       mret result);
  if negb (LotteryResult.isWin result) then mret tt
  else
    g ← getS;
    match state g with
    | Rush _ _ n =>
        tryCatch
          (continueResult ← drawing (Lottery.lotteryRushContinue random (lottery g) n);
           slotResult ←
             drawing (SlotProducer.produce random slotProducer continueResult);
           notify (OutLotteryRushContinue continueResult slotResult);;
           g ← getS;
           if LotteryResult.isWin continueResult then
             s ← liftResult (GameState.triggerRush (state g) (config g));
             modifyS (withState s)
           else
             s ← liftResult (GameState.incrementBalls (state g) (config g));
             modifyS (withState s))
          (fun _ => mret tt)
    | _ =>
        s ← liftResult (GameState.triggerRush (state g) (config g));
        modifyS (withState s)
    end.

(** [controlCommand.execute(this)] for each class of command. *)
Definition execute (command : GameCommand) : Eff t unit :=
  match command with
  | LaunchBall => launchBall
  | CauseLottery => causeLottery
  | StartGame => start
  | FinishGameCommandImpl => finish
  | LaunchBallFlow isLottery =>
      launchBall;;
      if isLottery then causeLottery else mret tt
  end.

(** The [switch (command)] over string commands. *)
Definition commandOfString (command : string) : Result GameCommand :=
  if String.eqb command "LaunchBall" then Ok LaunchBall
  else if String.eqb command "CauseLottery" then Ok CauseLottery
  else if String.eqb command "StartGame" then Ok StartGame
  else if String.eqb command "FinishGame" then Ok FinishGameCommandImpl
  else Throw (PlainError ("Unknown command: " +:+ command)).

Definition runStepWithCommand (command : option CommandType) : Eff t StepResult :=
  modifyS (fun g => withBeforeState (Some (state g)) g);;
  match command with
  | Some FinishGameObject => mret Break
  | None => mret Continue
  | Some (Control controlCommand) =>
      execute controlCommand;;
      g ← getS;
      notify (OutDefault (mkTransition (beforeState g) (state g)));;
      mret Continue
  | Some (CommandString s) =>
      if String.eqb s "FinishGame" then mret Break
      else if String.eqb s "" then mret Continue
      else
        controlCommand ← liftResult (commandOfString s);
        execute controlCommand;;
        g ← getS;
        notify (OutDefault (mkTransition (beforeState g) (state g)));;
        mret Continue
  end.

Definition runStep : Eff t StepResult :=
  command ← (fun g => let '(command, input') := waitForInput (input g) in
                      (Ok command, withInput input' g));
  runStepWithCommand command.

(** [run()]: [while (true) { if (this.runStep() === "break") break; }],
    cut off after [fuel] iterations. *)
Fixpoint run (fuel : nat) : Eff t bool :=
  match fuel with
  | O => mret false
  | S fuel' =>
      r ← runStep;
      match r with
      | Break => mret true
      | Continue => run fuel'
      end
  end.

(** The operations of the core that a caller can invoke on a game. *)
Inductive Call : Type :=
| CallRunStep
| CallRunStepWithCommand (command : option CommandType)
| CallStart
| CallFinish
| CallLaunchBall
| CallCauseLottery.

Definition perform (call : Call) (g : t) : t :=
  match call with
  | CallRunStep => (runStep g).2
  | CallRunStepWithCommand command => (runStepWithCommand command g).2
  | CallStart => (start g).2
  | CallFinish => (finish g).2
  | CallLaunchBall => (launchBall g).2
  | CallCauseLottery => (causeLottery g).2
  end.

(** A caller that makes the calls in order, catching whatever is thrown. *)
Definition performAll (calls : list Call) (g : t) : t :=
  foldl (fun g call => perform call g) g calls.
End WithRandom.
End Game.

(* ====================================================================== *)
(** * Vocabulary of the properties *)
(* ====================================================================== *)

(** Once set, the spinning flag is still set. *)
Definition keepsSpinning {I} (g g' : Game.t (I := I)) : Prop :=
  Game.isSlotSpinning g = true -> Game.isSlotSpinning g' = true.

(** From [g] to [g'] the saved [beforeState] is the same and the output
    grew by notifications none of which is a [default]. *)
Definition noDefaultSent {I} (g g' : Game.t (I := I)) : Prop :=
  Game.beforeState g' = Game.beforeState g
  /\ exists new, Game.output g' = Game.output g ++ new
                 /\ forall t, OutDefault t ∉ new.

(** Every [default] notification received so far carries a [before]. *)
Definition defaultsHaveBefore {I} (g : Game.t (I := I)) : Prop :=
  forall t, OutDefault t ∈ Game.output g -> before t <> None.

(** All the elements of [l] are one and the same. *)
Definition allIdentical {T} (l : list T) : Prop :=
  forall x y, x ∈ l -> y ∈ l -> x = y.

(* ====================================================================== *)
(** * Example CLI implementation *)
(* ====================================================================== *)

Module CLIInput.
Record t : Type := mk {
  launchBallFlowProducer : LaunchBallFlowProducer.t;
  commands : list string;
  currentIndex : nat
}.

(** The constructor. *)
Definition new (startHoleProbability : Q) : Result t :=
  match LaunchBallFlowProducer.new startHoleProbability with
  | Throw e => Throw e
  | Ok producer => Ok (mk producer [] 0%nat)
  end.

Definition addCommands (commands : list string) (self : t) : t :=
  mk (launchBallFlowProducer self) commands 0%nat.

(** The body of [waitForInput], entered with [currentIndex = index] and
    [rest] the tokens from that index on; the recursive call on an unknown
    token is the recursion on [rest].  Returns the command and the index
    the input is left at. *)
Fixpoint scan (random : nat -> Q) (producer : LaunchBallFlowProducer.t)
  (rest : list string) (index : nat) : Rand (CommandType * nat) :=
  match rest with
  | [] => mret (Command.FinishGame, index)
  | cmd :: rest' =>
      if String.eqb cmd "s" then mret (Control StartGame, S index)
      else if String.eqb cmd "l" || String.eqb cmd "" then
        flow ← LaunchBallFlowProducer.produce random producer;
        mret (Control flow, S index)
      else if String.eqb cmd "q" then mret (Control FinishGameCommandImpl, S index)
      else if String.eqb cmd "q!" then mret (Command.FinishGame, S index)
      else scan random producer rest' (S index)
  end.

Definition waitForInput (random : nat -> Q) (self : t) : Rand (CommandType * t) :=
  r ← scan random (launchBallFlowProducer self)
         (drop (currentIndex self) (commands self)) (currentIndex self);
  mret (r.1, mk (launchBallFlowProducer self) (commands self) r.2).
End CLIInput.

(* ====================================================================== *)
(** * Vocabulary of the further properties *)
(* ====================================================================== *)

(** A probability in the closed unit interval. *)
Definition inUnit (p : Q) : Prop := (0 <= p <= 1)%Q.


(** The messages [SlotProbability.validate] collects. *)
Definition slotErrors (p : SlotProbability.t) : list string :=
  caughtErrors (SlotProbability.validate p).

(** A matching line: [L] times one symbol of the catalog. *)
Definition winningLine (L : Z) (choices : list SlotSymbol) (reel : SlotResult) : Prop :=
  exists s, s ∈ choices /\ reel = replicate (Z.to_nat L) (Some s).

(** Every cell of the reel holds a symbol of the catalog. *)
Definition fromCatalog (choices : list SlotSymbol) (reel : SlotResult) : Prop :=
  forall cell, cell ∈ reel -> exists s, cell = Some s /\ s ∈ choices.

(** A notification of one of the three lottery moments. *)
Definition isLotteryNotification (n : Notification) : bool :=
  match n with
  | OutLotteryNormal _ _ | OutLotteryRush _ _ | OutLotteryRushContinue _ _ => true
  | _ => false
  end.

(** The game [g] after a spin that left its state alone: the flag is set,
    [sent] went to the output and the random source stands at [drawn]. *)
Definition afterSpin {I} (g : Game.t (I := I)) (drawn : nat)
  (sent : list Notification) : Game.t (I := I) :=
  Game.mk (Game.beforeState g) (Game.state g) (Game.lottery g) (Game.config g)
          true (Game.input g) (Game.output g ++ sent) drawn.

(** The probability the first draw of [causeLottery] is made against, and
    the notification that reports it. *)
Definition spinProbability {I} (g : Game.t (I := I)) : SlotProbability.t :=
  if GameState.isRush (Game.state g)
  then Probability.rush (Game.lottery g)
  else Probability.normal (Game.lottery g).

Definition spinNotification {I} (g : Game.t (I := I))
  (result : LotteryResultType) (slot : SlotOutput) : Notification :=
  if GameState.isRush (Game.state g)
  then OutLotteryRush result slot
  else OutLotteryNormal result slot.



(** The notifications that are [default] ones. *)
Definition defaultsOf (sent : list Notification) : list Transition :=
  omap (fun n => match n with OutDefault t => Some t | _ => None end) sent.

(** A caller that asks a [JsInput] for a command [n] times in a row: the
    answers, in order, and the input it is left with. *)
Fixpoint pullCommands (n : nat) (input : JsInput.t)
  : list (option CommandType) * JsInput.t :=
  match n with
  | O => ([], input)
  | S n' =>
      let '(command, input') := JsInput.waitForInput input in
      let '(rest, input'') := pullCommands n' input' in
      (command :: rest, input'')
  end.

(** The tokens [CLIInput.waitForInput] turns into a command. *)
Definition knownToken (cmd : string) : bool :=
  String.eqb cmd "s" || String.eqb cmd "l" || String.eqb cmd ""
  || String.eqb cmd "q" || String.eqb cmd "q!".

(** The strings [runStepWithCommand] has a meaning for. *)
Definition knownCommandString (s : string) : bool :=
  String.eqb s "" || String.eqb s "LaunchBall" || String.eqb s "CauseLottery"
  || String.eqb s "StartGame" || String.eqb s "FinishGame".

(* ====================================================================== *)
(** * Example configuration *)
(* ====================================================================== *)

Definition START_HOLE_PROBABILITY_EXAMPLE : Q := 12 # 100.

Definition CONFIG_EXAMPLE : Config.t :=
  Config.mk
    (BallsConfig.mk 1000 15 300)
    (Probability.mk
       (SlotProbability.mk (16 # 100) (3 # 10) (15 # 100))
       (SlotProbability.mk (48 # 100) (2 # 10) (5 # 100))
       (SlotProbability.mk (8 # 10) (25 # 100) (1 # 10))
       (fun n => Qpower (6 # 10) (n - 1))).

(** The example configuration with another balls economy. *)
Definition exampleWithBalls (balls : BallsConfig.t) : Config.t :=
  Config.mk balls (Config.probability CONFIG_EXAMPLE).

(** The example configuration with a continuation function that is
    constantly [k]. *)
Definition exampleWithContinue (k : Q) : Config.t :=
  Config.mk (Config.balls CONFIG_EXAMPLE)
            (Probability.mk (Probability.normal (Config.probability CONFIG_EXAMPLE))
                            (Probability.rush (Config.probability CONFIG_EXAMPLE))
                            (Probability.rushContinue (Config.probability CONFIG_EXAMPLE))
                            (fun _ => k)).

(** Random sources used in the examples: a constant one, and one that walks
    through 0, 1/10, ..., 9/10 again and again. *)
Definition constantRandom (q : Q) : nat -> Q := fun _ => q.
Definition cyclingRandom : nat -> Q := fun i => Z.of_nat (i mod 10) # 10.

(** The commands queued in the examples. *)
Definition exampleInput : JsInput.t :=
  JsInput.mk [Control StartGame; Control (LaunchBallFlow true)] 0%nat.

(** A game in the middle of a session, for the examples. *)
Definition gameIn (config : Config.t) (state : GameStateType) (spinning : bool)
  : Game.t (I := JsInput.t) :=
  Game.mk None state (Config.probability config) (Config.balls config) spinning
          (JsInput.mk [] 0%nat) [] 0%nat.

(* ====================================================================== *)
(** * Properties of the state machine *)
(* ====================================================================== *)

Lemma Qltb_lt (a b : Q) : Qltb a b = true <-> (a < b)%Q.
Proof.
  unfold Qltb. rewrite negb_true_iff, <- not_true_iff_false, Qle_bool_iff.
  split; [apply Qnot_le_lt | apply Qlt_not_le].
Qed.

Lemma throwIfAny_Ok (errors : list string) :
  throwIfAny errors = Ok tt -> errors = [].
Proof. destruct errors; [done | discriminate]. Qed.

Lemma BallsConfig_validate_Ok (c : BallsConfig.t) :
  BallsConfig.validate c = Ok tt -> 1 <= BallsConfig.initBalls c.
Proof.
  unfold BallsConfig.validate. destruct (Z.ltb_spec (BallsConfig.initBalls c) 1).
  - discriminate.
  - done.
Qed.

Lemma Config_validate_Ok (c : Config.t) :
  Config.validate c = Ok tt -> 1 <= BallsConfig.initBalls (Config.balls c).
Proof.
  unfold Config.validate. intros Hv%throwIfAny_Ok.
  apply app_eq_nil in Hv as [Hb _].
  apply BallsConfig_validate_Ok.
  unfold BallsConfig.validate in *.
  destruct (BallsConfig.initBalls (Config.balls c) <? 1); [discriminate | done].
Qed.

Lemma applyOp_sessionInvariant (config : BallsConfig.t) (op : StateOp)
  (s s' : GameStateType) :
  1 <= BallsConfig.initBalls config ->
  0 <= BallsConfig.incrementalBalls config ->
  1 <= BallsConfig.incrementalRush config ->
  sessionInvariant s ->
  applyOp config op s = Ok s' ->
  sessionInvariant s'.
Proof.
  intros Hinit Hballs Hrush Hs.
  destruct op, s as [|b|b rb n]; simpl in *; try discriminate.
  - intros [= <-]. simpl. lia.
  - destruct (Z.eqb_spec (b - 1) 0); intros [= <-]; simpl; lia.
  - destruct (Z.eqb_spec (rb - 1) 0); intros [= <-]; simpl; lia.
  - intros [= <-]. simpl. lia.
  - intros [= <-]. simpl. lia.
  - intros [= <-]. simpl. lia.
  - intros [= <-]. simpl. lia.
Qed.

Lemma applyOps_sessionInvariant (config : BallsConfig.t) (ops : list StateOp) :
  1 <= BallsConfig.initBalls config ->
  0 <= BallsConfig.incrementalBalls config ->
  1 <= BallsConfig.incrementalRush config ->
  forall s s', sessionInvariant s -> applyOps config ops s = Ok s' -> sessionInvariant s'.
Proof.
  intros Hinit Hballs Hrush.
  induction ops as [|op rest IH]; intros s s' Hs; simpl.
  - by intros [= <-].
  - destruct (applyOp config op s) as [s1|e] eqn:Hop; [|discriminate].
    apply IH. eapply applyOp_sessionInvariant; eauto.
Qed.

Lemma sessionInvariant_fieldsNonNegative (s : GameStateType) :
  sessionInvariant s -> fieldsNonNegative s.
Proof. destruct s; simpl; lia. Qed.

(** C1, as amended.  Under a configuration accepted by [Config.validate] whose
    [incrementalBalls] is at least 0 and whose [incrementalRush] is at least 1,
    every state reached from [Uninitialized] by a sequence of [init],
    [launchBall], [incrementBalls] and [triggerRush] has [balls >= 0],
    [rushBalls >= 0] and [n >= 1]. *)
Theorem reachable_fields_nonnegative (config : Config.t) (ops : list StateOp)
  (s : GameStateType) :
  Config.validate config = Ok tt ->
  0 <= BallsConfig.incrementalBalls (Config.balls config) ->
  1 <= BallsConfig.incrementalRush (Config.balls config) ->
  applyOps (Config.balls config) ops Uninitialized = Ok s ->
  fieldsNonNegative s.
Proof.
  intros Hv Hballs Hrush Hrun.
  apply sessionInvariant_fieldsNonNegative.
  eapply applyOps_sessionInvariant; eauto using Config_validate_Ok.
  exact I.
Qed.

(** C1, as stated, fails: [Config.validate] constrains neither
    [incrementalRush] nor [incrementalBalls].  With [incrementalRush = 0] a
    rush starts with an empty pool and the next launch takes it to -1; with a
    negative [incrementalBalls] a win takes [balls] below zero. *)
Lemma validated_config_reaches_negative_fields :
  ~ (forall (config : Config.t) (ops : list StateOp) (s : GameStateType),
        Config.validate config = Ok tt ->
        applyOps (Config.balls config) ops Uninitialized = Ok s ->
        fieldsNonNegative s)
  /\ Config.validate (exampleWithBalls (BallsConfig.mk 1000 15 0)) = Ok tt
  /\ applyOps (BallsConfig.mk 1000 15 0) [OpInit; OpTriggerRush; OpLaunchBall]
              Uninitialized = Ok (Rush 1015 (-1) 1)
  /\ Config.validate (exampleWithBalls (BallsConfig.mk 1000 (-2000) 300)) = Ok tt
  /\ applyOps (BallsConfig.mk 1000 (-2000) 300) [OpInit; OpTriggerRush]
              Uninitialized = Ok (Rush (-1000) 300 1).
Proof.
  split; [|repeat split; reflexivity].
  intros Hclaim.
  specialize (Hclaim (exampleWithBalls (BallsConfig.mk 1000 15 0))
                     [OpInit; OpTriggerRush; OpLaunchBall] (Rush 1015 (-1) 1)
                     eq_refl eq_refl).
  simpl in Hclaim. lia.
Qed.

(** C2.  [GameState.launchBall] throws [UninitializedError] from
    [Uninitialized]; from [Normal b] it gives [Normal (b-1)] when [b-1 > 0]
    and [Uninitialized] when [b-1 = 0]; from [Rush b rb n] it gives
    [Rush b (rb-1) n] when [rb-1 > 0] and [Normal b] when [rb-1 = 0]. *)
Theorem launchBall_spec :
  GameState.launchBall Uninitialized = Throw UninitializedError
  /\ (forall b, b - 1 > 0 -> GameState.launchBall (Normal b) = Ok (Normal (b - 1)))
  /\ (forall b, b - 1 = 0 -> GameState.launchBall (Normal b) = Ok Uninitialized)
  /\ (forall b rb n, rb - 1 > 0 ->
        GameState.launchBall (Rush b rb n) = Ok (Rush b (rb - 1) n))
  /\ (forall b rb n, rb - 1 = 0 ->
        GameState.launchBall (Rush b rb n) = Ok (Normal b)).
Proof.
  repeat split; intros; simpl.
  - destruct (Z.eqb_spec (b - 1) 0); [lia | done].
  - destruct (Z.eqb_spec (b - 1) 0); [done | lia].
  - destruct (Z.eqb_spec (rb - 1) 0); [lia | done].
  - destruct (Z.eqb_spec (rb - 1) 0); [done | lia].
Qed.

(* ====================================================================== *)
(** * Properties of the lottery *)
(* ====================================================================== *)

(** Unfolds the monadic plumbing so that a computation applied to a state
    reduces to its result. *)
Ltac eff_unfold :=
  unfold mbind, mret, Eff_bind, Eff_ret, effBind, effRet, throw, tryCatch,
    getS, modifyS, liftResult, zoom in *.

Section LotteryProperties.
Variable random : nat -> Q.

Lemma lottery_returns (sp : SlotProbability.t) (drawn : nat) :
  exists result, Lottery.lottery random sp drawn = (Ok result, S (S drawn)).
Proof.
  unfold Lottery.lottery, Lottery.mathRandom. eff_unfold.
  destruct (Qltb (random drawn) (SlotProbability.win sp)); eauto.
Qed.

(** C4.  [lotteryRushContinue(n)] throws [ProbabilityError] exactly when
    [rushContinue.win * rushContinueFn(n) > 1]; otherwise it is the draw
    of [lottery] against the probability whose [win] is that product and
    whose [fakeWin] and [fakeLose] are those of [rushContinue]. *)
Theorem lotteryRushContinue_spec (p : Probability.t) (n : Z) (drawn : nat) :
  let base := Probability.rushContinue p in
  let product := (SlotProbability.win base * Probability.rushContinueFn p n)%Q in
  ((Lottery.lotteryRushContinue random p n drawn).1 = Throw ProbabilityError
   <-> (1 < product)%Q)
  /\ (~ (1 < product)%Q ->
      Lottery.lotteryRushContinue random p n drawn
      = Lottery.lottery random
          (SlotProbability.mk product (SlotProbability.fakeWin base)
                              (SlotProbability.fakeLose base))
          drawn).
Proof.
  intros base product. unfold Lottery.lotteryRushContinue.
  fold base. fold product.
  destruct (Qltb 1 product) eqn:Hlt.
  - apply Qltb_lt in Hlt. split; [done | tauto].
  - assert (~ (1 < product)%Q) as Hle
      by (rewrite <- Qltb_lt, Hlt; discriminate).
    split; [|done]. split; [|tauto].
    destruct (lottery_returns
                (SlotProbability.mk product (SlotProbability.fakeWin base)
                                    (SlotProbability.fakeLose base)) drawn)
      as [r ->].
    discriminate.
Qed.
End LotteryProperties.

(* ====================================================================== *)
(** * Computations that cannot throw *)
(* ====================================================================== *)

Lemma returns_ret {S A} (a : A) : returns (mret a : Eff S A).
Proof. intros s. by exists a, s. Qed.

Lemma returns_bind {S A B} (m : Eff S A) (f : A -> Eff S B) :
  returns m -> (forall a, returns (f a)) -> returns (m ≫= f).
Proof.
  intros Hm Hf s. destruct (Hm s) as (a & s' & Hms).
  destruct (Hf a s') as (b & s'' & Hfs).
  exists b, s''. eff_unfold. by rewrite Hms.
Qed.

Section SlotReturns.
Variable random : nat -> Q.

Lemma mathRandom_returns : returns (Lottery.mathRandom random).
Proof. intros s. by eexists _, _. Qed.

Lemma floorRandomTimes_returns (k : Z) :
  returns (SlotProducer.floorRandomTimes random k).
Proof.
  apply returns_bind; [apply mathRandom_returns | intros; apply returns_ret].
Qed.

Lemma shuffleFrom_returns {T} (i : nat) (array : JsArray T) :
  returns (SlotProducer.shuffleFrom random i array).
Proof.
  revert array. induction i as [|i IH]; intros array; simpl.
  - apply returns_ret.
  - apply returns_bind; [apply floorRandomTimes_returns | intros; apply IH].
Qed.

Lemma pushRandom_returns {T} (cnt : nat) (from result : JsArray T) :
  returns (SlotProducer.pushRandom random cnt from result).
Proof.
  revert result. induction cnt as [|cnt IH]; intros result; simpl.
  - apply returns_ret.
  - apply returns_bind; [apply floorRandomTimes_returns | intros; apply IH].
Qed.

Lemma produceLose_returns (self : SlotProducer.t) :
  returns (SlotProducer.produceLose random self).
Proof.
  unfold SlotProducer.produceLose, SlotProducer.shuffleArray.
  repeat first
    [ apply floorRandomTimes_returns | apply shuffleFrom_returns
    | apply pushRandom_returns | apply returns_bind; intros ].
Qed.

Lemma produceFakeLose_returns (self : SlotProducer.t) :
  returns (SlotProducer.produceFakeLose random self).
Proof.
  unfold SlotProducer.produceFakeLose.
  repeat first
    [ apply floorRandomTimes_returns | apply mathRandom_returns
    | apply returns_ret | apply returns_bind; intros ].
Qed.

Lemma produceWin_returns (self : SlotProducer.t) :
  0 <= SlotProducer.length_ self ->
  returns (SlotProducer.produceWin random self).
Proof.
  intros Hlen. unfold SlotProducer.produceWin.
  apply returns_bind; [apply floorRandomTimes_returns | intros k].
  destruct (Z.ltb_spec (SlotProducer.length_ self) 0); [lia | apply returns_ret].
Qed.

Lemma produce_returns (self : SlotProducer.t) (result : LotteryResultType) :
  0 <= SlotProducer.length_ self ->
  returns (SlotProducer.produce random self result).
Proof.
  intros Hlen. destruct result as [[]|[]]; simpl;
    repeat first
      [ by apply produceWin_returns | apply produceFakeLose_returns
      | apply produceLose_returns | apply returns_ret
      | apply returns_bind; intros ].
Qed.
End SlotReturns.

(* ====================================================================== *)
(** * Relations that every step of a computation keeps *)
(* ====================================================================== *)

Section Preservation.
Context {S : Type} (R : S -> S -> Prop).
Hypothesis R_refl : forall s, R s s.
Hypothesis R_trans : forall s1 s2 s3, R s1 s2 -> R s2 s3 -> R s1 s3.

Lemma preserves_ret {A} (a : A) : preserves R (mret a).
Proof. intros s. apply R_refl. Qed.

Lemma preserves_throw {A} (e : Error) : preserves R (throw e : Eff S A).
Proof. intros s. apply R_refl. Qed.

Lemma preserves_getS : preserves R getS.
Proof. intros s. apply R_refl. Qed.

Lemma preserves_liftResult {A} (r : Result A) : preserves R (liftResult r).
Proof. intros s. apply R_refl. Qed.

Lemma preserves_modifyS (f : S -> S) : (forall s, R s (f s)) -> preserves R (modifyS f).
Proof. intros Hf s. apply Hf. Qed.

Lemma preserves_bind {A B} (m : Eff S A) (f : A -> Eff S B) :
  preserves R m -> (forall a, preserves R (f a)) -> preserves R (m ≫= f).
Proof.
  intros Hm Hf s. specialize (Hm s). eff_unfold.
  destruct (m s) as [[a|e] s']; simpl in *.
  - eapply R_trans; [exact Hm | apply Hf].
  - exact Hm.
Qed.

Lemma preserves_tryCatch {A} (body : Eff S A) (handler : Error -> Eff S A) :
  preserves R body -> (forall e, preserves R (handler e)) ->
  preserves R (tryCatch body handler).
Proof.
  intros Hb Hh s. specialize (Hb s). unfold tryCatch.
  destruct (body s) as [[a|e] s']; simpl in *.
  - exact Hb.
  - eapply R_trans; [exact Hb | apply Hh].
Qed.

Lemma preserves_zoom {T A} (get : S -> T) (set : T -> S -> S) (m : Eff T A) :
  (forall t s, R s (set t s)) -> preserves R (zoom get set m).
Proof.
  intros Hset s. unfold zoom. destruct (m (get s)) as [r t']. apply Hset.
Qed.
End Preservation.

(* ====================================================================== *)
(** * Properties of the game *)
(* ====================================================================== *)

(** Reduces the field reads and field updates of a game. *)
Ltac game_simpl :=
  cbn [Game.beforeState Game.state Game.lottery Game.config Game.isSlotSpinning
       Game.input Game.output Game.drawn
       Game.withBeforeState Game.withState Game.withSlotSpinning Game.withInput
       Game.withOutput Game.withDrawn fst snd negb LotteryResult.isWin] in *.

Section GameProperties.
Variable random : nat -> Q.
Context {I : Type} {inputI : UserInput I}.
Implicit Types g : Game.t (I := I).

Lemma slotProducer_produce_returns (result : LotteryResultType) :
  returns (SlotProducer.produce random Game.slotProducer result).
Proof. by apply produce_returns. Qed.

(** Runs [causeLottery] symbolically, rewriting with the equations that
    [rw] knows about the draws. *)
Ltac run_causeLottery rw :=
  unfold Game.causeLottery, Game.setSlotSpinning, Game.drawing, Game.notify;
  eff_unfold;
  repeat (game_simpl; rw;
          cbn [GameState.isRush GameState.triggerRush GameState.incrementBalls]).

(** C3.  From [Normal b], when the normal-mode draw of [causeLottery] is a
    win of either kind, the game ends in
    [Rush (b + incrementalBalls) incrementalRush 1]. *)
Theorem causeLottery_normal_win g (b : Z) (w : Win.t) :
  Game.state g = Normal b ->
  (Lottery.lotteryNormal random (Game.lottery g) (Game.drawn g)).1
    = Ok (LotteryResult.Win w) ->
  exists g',
    Game.causeLottery random g = (Ok tt, g')
    /\ Game.state g'
       = Rush (b + BallsConfig.incrementalBalls (Game.config g))
              (BallsConfig.incrementalRush (Game.config g)) 1.
Proof.
  intros Hstate Hdraw.
  destruct (Lottery.lotteryNormal random (Game.lottery g) (Game.drawn g))
    as [r d1] eqn:Hl. simpl in Hdraw. subst r.
  destruct (slotProducer_produce_returns (LotteryResult.Win w) d1)
    as (slot & d2 & Hp).
  run_causeLottery ltac:(rewrite ?Hstate, ?Hl, ?Hp).
  eexists. split; reflexivity.
Qed.

(** C5.  In a [Rush] state, when the rush-mode draw is a win and
    [lotteryRushContinue] throws [ProbabilityError], [causeLottery]
    returns normally and the game state is the one it started with. *)
Theorem causeLottery_probability_error g (b rb n : Z) (w : Win.t)
  (slot : SlotOutput) (d1 d2 d3 : nat) :
  Game.state g = Rush b rb n ->
  Lottery.lotteryRush random (Game.lottery g) (Game.drawn g)
    = (Ok (LotteryResult.Win w), d1) ->
  SlotProducer.produce random Game.slotProducer (LotteryResult.Win w) d1
    = (Ok slot, d2) ->
  Lottery.lotteryRushContinue random (Game.lottery g) n d2
    = (Throw ProbabilityError, d3) ->
  exists g',
    Game.causeLottery random g = (Ok tt, g')
    /\ Game.state g' = Game.state g.
Proof.
  intros Hstate Hl Hp Hc.
  run_causeLottery ltac:(rewrite ?Hstate, ?Hl, ?Hp, ?Hc).
  eexists. split; [reflexivity|]. game_simpl. by rewrite Hstate.
Qed.

(** C6.  In [Rush b rb n], when the rush-mode draw is a win and
    [lotteryRushContinue n] returns: on a win the game ends in
    [Rush (b + incrementalBalls) (rb + incrementalRush) (n + 1)], on a
    loss in [Rush (b + incrementalBalls) rb n]. *)
Theorem causeLottery_rush_continue g (b rb n : Z) (w : Win.t)
  (slot : SlotOutput) (continueResult : LotteryResultType) (d1 d2 d3 : nat) :
  Game.state g = Rush b rb n ->
  Lottery.lotteryRush random (Game.lottery g) (Game.drawn g)
    = (Ok (LotteryResult.Win w), d1) ->
  SlotProducer.produce random Game.slotProducer (LotteryResult.Win w) d1
    = (Ok slot, d2) ->
  Lottery.lotteryRushContinue random (Game.lottery g) n d2
    = (Ok continueResult, d3) ->
  exists g',
    Game.causeLottery random g = (Ok tt, g')
    /\ Game.state g'
       = if LotteryResult.isWin continueResult
         then Rush (b + BallsConfig.incrementalBalls (Game.config g))
                   (rb + BallsConfig.incrementalRush (Game.config g)) (n + 1)
         else Rush (b + BallsConfig.incrementalBalls (Game.config g)) rb n.
Proof.
  intros Hstate Hl Hp Hc.
  destruct (slotProducer_produce_returns continueResult d3)
    as (slot' & d4 & Hp').
  run_causeLottery ltac:(rewrite ?Hstate, ?Hl, ?Hp, ?Hc, ?Hp').
  destruct continueResult as [w'|l'];
    run_causeLottery ltac:(rewrite ?Hstate);
    eexists; split; reflexivity.
Qed.

(** ** Relations kept by every command *)

Section Frame.
Variable R : Game.t (I := I) -> Game.t (I := I) -> Prop.
Hypothesis R_refl : forall g, R g g.
Hypothesis R_trans : forall g1 g2 g3, R g1 g2 -> R g2 g3 -> R g1 g3.
Hypothesis R_state : forall v g, R g (Game.withState v g).
Hypothesis R_drawn : forall d g, R g (Game.withDrawn d g).
Hypothesis R_spin : forall g, R g (Game.withSlotSpinning true g).
Hypothesis R_notify : forall n g,
  (forall t, n <> OutDefault t) -> R g (Game.withOutput (Game.output g ++ [n]) g).

Ltac frame :=
  repeat first
    [ apply preserves_ret; assumption
    | apply preserves_throw; assumption
    | apply preserves_getS; assumption
    | apply preserves_liftResult; assumption
    | apply preserves_zoom; assumption
    | apply preserves_modifyS; first [by apply R_state | by apply R_spin]
    | apply preserves_modifyS; intros; by apply R_notify
    | apply preserves_tryCatch; [assumption | | intros]
    | apply preserves_bind; [assumption | | intros]
    | match goal with
      | |- preserves _ (if ?b then _ else _) => destruct b
      | |- preserves _ (match ?x with Ok _ => _ | Throw _ => _ end) => destruct x
      | |- preserves _ (match Game.state ?g with _ => _ end) =>
          destruct (Game.state g)
      end ].

Lemma start_preserves : preserves R Game.start.
Proof. unfold Game.start, Game.notify. frame. Qed.

Lemma finish_preserves : preserves R Game.finish.
Proof. unfold Game.finish, Game.notify. frame. Qed.

Lemma launchBall_preserves : preserves R Game.launchBall.
Proof. unfold Game.launchBall. frame. Qed.

Lemma causeLottery_preserves : preserves R (Game.causeLottery random).
Proof.
  unfold Game.causeLottery, Game.setSlotSpinning, Game.notify, Game.drawing.
  frame.
Qed.

Lemma execute_preserves (command : GameCommand) :
  preserves R (Game.execute random command).
Proof.
  destruct command; simpl;
    auto using start_preserves, finish_preserves, launchBall_preserves,
      causeLottery_preserves.
  apply preserves_bind; [assumption | apply launchBall_preserves |].
  intros _. destruct isLottery;
    [apply causeLottery_preserves | by apply preserves_ret].
Qed.
End Frame.

(** ** The spinning flag *)

Lemma keepsSpinning_refl g : keepsSpinning g g.
Proof. by intros H. Qed.

Lemma keepsSpinning_trans g1 g2 g3 :
  keepsSpinning g1 g2 -> keepsSpinning g2 g3 -> keepsSpinning g1 g3.
Proof. unfold keepsSpinning. auto. Qed.

Lemma execute_keepsSpinning (command : GameCommand) :
  preserves (keepsSpinning (I := I)) (Game.execute random command).
Proof.
  apply execute_preserves;
    first [ apply keepsSpinning_refl | apply keepsSpinning_trans
          | by unfold keepsSpinning ].
Qed.

Lemma runStepWithCommand_keepsSpinning (command : option CommandType) :
  preserves (keepsSpinning (I := I)) (Game.runStepWithCommand random command).
Proof.
  pose proof keepsSpinning_refl as Hrefl.
  pose proof keepsSpinning_trans as Htrans.
  assert (forall n, preserves (keepsSpinning (I := I)) (Game.notify n)) as Hnotify
    by (intros n; apply preserves_modifyS; by unfold keepsSpinning).
  assert (forall c, preserves (keepsSpinning (I := I))
             (Game.execute random c;;
              g ← getS;
              Game.notify (OutDefault (mkTransition (Game.beforeState g) (Game.state g)));;
              mret Continue)) as Hexec.
  { intros c. apply preserves_bind; [done | apply execute_keepsSpinning |].
    intros _. apply preserves_bind; [done | by apply preserves_getS |].
    intros g. apply preserves_bind; [done | apply Hnotify |].
    intros _. by apply preserves_ret. }
  unfold Game.runStepWithCommand.
  apply preserves_bind; [done | apply preserves_modifyS; by unfold keepsSpinning |].
  intros _. destruct command as [[c| |s]|]; try by apply preserves_ret.
  - apply Hexec.
  - destruct (String.eqb s "FinishGame"); [by apply preserves_ret|].
    destruct (String.eqb s ""); [by apply preserves_ret|].
    apply preserves_bind; [done | by apply preserves_liftResult |].
    intros c. apply Hexec.
Qed.

Lemma runStep_keepsSpinning : preserves (keepsSpinning (I := I)) (Game.runStep random).
Proof.
  unfold Game.runStep.
  apply preserves_bind; [apply keepsSpinning_trans | |].
  - intros g. unfold keepsSpinning.
    by destruct (waitForInput (Game.input g)) as [c i'].
  - intros c. apply runStepWithCommand_keepsSpinning.
Qed.

Lemma run_keepsSpinning (fuel : nat) :
  preserves (keepsSpinning (I := I)) (Game.run random fuel).
Proof.
  induction fuel as [|fuel IH]; simpl.
  - apply preserves_ret, keepsSpinning_refl.
  - apply preserves_bind;
      [apply keepsSpinning_trans | apply runStep_keepsSpinning |].
    intros [|]; [apply IH | apply preserves_ret, keepsSpinning_refl].
Qed.

Lemma perform_keepsSpinning (call : Game.Call) g :
  keepsSpinning g (Game.perform random call g).
Proof.
  destruct call; simpl.
  - apply runStep_keepsSpinning.
  - apply runStepWithCommand_keepsSpinning.
  - apply (execute_keepsSpinning StartGame).
  - apply (execute_keepsSpinning FinishGameCommandImpl).
  - apply (execute_keepsSpinning LaunchBall).
  - apply (execute_keepsSpinning CauseLottery).
Qed.

Lemma performAll_keepsSpinning (calls : list Game.Call) g :
  keepsSpinning g (Game.performAll random calls g).
Proof.
  revert g. induction calls as [|call calls IH]; intros g; simpl.
  - apply keepsSpinning_refl.
  - eapply keepsSpinning_trans; [apply perform_keepsSpinning | apply IH].
Qed.

(** C9.  [causeLottery] leaves the spinning flag set; none of [runStep],
    [runStepWithCommand], [start], [finish], [launchBall], [causeLottery]
    clears a flag that is set, however they end and however many of them
    are called; and with the flag set [launchBall] throws and changes
    nothing in the game. *)
Theorem spinning_flag_guard :
  (forall g, Game.isSlotSpinning (Game.causeLottery random g).2 = true)
  /\ (forall (call : Game.Call) g,
        Game.isSlotSpinning g = true ->
        Game.isSlotSpinning (Game.perform random call g) = true)
  /\ (forall (calls : list Game.Call) g,
        Game.isSlotSpinning g = true ->
        Game.isSlotSpinning (Game.performAll random calls g) = true)
  /\ (forall g,
        Game.isSlotSpinning g = true ->
        Game.launchBall g
        = (Throw (PlainError "Cannot launch ball while slot is spinning"), g)).
Proof.
  repeat split.
  - intros g.
    change (Game.causeLottery random g)
      with (Game.causeLottery random (Game.withSlotSpinning true g)).
    by apply (execute_keepsSpinning CauseLottery).
  - intros call g. apply perform_keepsSpinning.
  - intros calls g. apply performAll_keepsSpinning.
  - intros g Hflag. unfold Game.launchBall. eff_unfold. by rewrite Hflag.
Qed.

(** ** The transitions sent to [output.default] *)

Lemma noDefaultSent_quiet g g' :
  Game.beforeState g' = Game.beforeState g ->
  Game.output g' = Game.output g ->
  noDefaultSent g g'.
Proof.
  intros Hb Ho. split; [done|]. exists []. split; [by rewrite app_nil_r|].
  intros t. apply not_elem_of_nil.
Qed.

Lemma noDefaultSent_refl g : noDefaultSent g g.
Proof. by apply noDefaultSent_quiet. Qed.

Lemma noDefaultSent_trans g1 g2 g3 :
  noDefaultSent g1 g2 -> noDefaultSent g2 g3 -> noDefaultSent g1 g3.
Proof.
  intros [Hb1 (n1 & Ho1 & Hn1)] [Hb2 (n2 & Ho2 & Hn2)].
  split; [congruence|]. exists (n1 ++ n2).
  split; [by rewrite Ho2, Ho1, app_assoc|].
  intros t [?|?]%elem_of_app; [by eapply Hn1 | by eapply Hn2].
Qed.

Lemma execute_noDefaultSent (command : GameCommand) :
  preserves (noDefaultSent (I := I)) (Game.execute random command).
Proof.
  apply execute_preserves.
  - apply noDefaultSent_refl.
  - apply noDefaultSent_trans.
  - intros v g. by apply noDefaultSent_quiet.
  - intros d g. by apply noDefaultSent_quiet.
  - intros g. by apply noDefaultSent_quiet.
  - intros n g Hn. split; [done|]. exists [n]. split; [done|].
    intros t Ht%list_elem_of_singleton. exact (Hn t (eq_sym Ht)).
Qed.

(** What [runStepWithCommand] sends: every [default] among it carries the
    state the game had when the step began. *)
Lemma runStepWithCommand_sends (command : option CommandType) g :
  exists new,
    Game.output (Game.runStepWithCommand random command g).2 = Game.output g ++ new
    /\ forall t, OutDefault t ∈ new -> before t = Some (Game.state g).
Proof.
  set (g1 := Game.withBeforeState (Some (Game.state g)) g).
  assert (forall c,
    exists new,
      Game.output
        ((Game.execute random c;;
          g ← getS;
          Game.notify (OutDefault (mkTransition (Game.beforeState g) (Game.state g)));;
          mret Continue) g1).2 = Game.output g ++ new
      /\ forall t, OutDefault t ∈ new -> before t = Some (Game.state g)) as Hexec.
  { intros c. pose proof (execute_noDefaultSent c g1) as [Hb (new & Ho & Hn)].
    unfold Game.notify. eff_unfold.
    destruct (Game.execute random c g1) as [[[]|e] g2]; game_simpl.
    - exists (new ++ [OutDefault (mkTransition (Game.beforeState g2) (Game.state g2))]).
      split; [by rewrite Ho, app_assoc|].
      intros t [Ht|[= ->]%list_elem_of_singleton]%elem_of_app.
      + by apply Hn in Ht.
      + simpl. by rewrite Hb.
    - exists new. split; [done|]. intros t Ht. by apply Hn in Ht. }
  assert (exists new, Game.output g1 = Game.output g ++ new
            /\ forall t, OutDefault t ∈ new -> before t = Some (Game.state g))
    as Hidle.
  { exists []. split; [by rewrite app_nil_r|]. by intros t Ht%elem_of_nil. }
  unfold Game.runStepWithCommand.
  destruct command as [[c| |s]|].
  - apply Hexec.
  - apply Hidle.
  - change (Game.runStepWithCommand random (Some (CommandString s)) g)
      with ((if String.eqb s "FinishGame" then mret Break
             else if String.eqb s "" then mret Continue
             else controlCommand ← liftResult (Game.commandOfString s);
                  Game.execute random controlCommand;;
                  g ← getS;
                  Game.notify
                    (OutDefault (mkTransition (Game.beforeState g) (Game.state g)));;
                  mret Continue) g1).
    destruct (String.eqb s "FinishGame"); [apply Hidle|].
    destruct (String.eqb s ""); [apply Hidle|].
    destruct (Game.commandOfString s) as [c|e] eqn:Hc.
    + apply (Hexec c).
    + apply Hidle.
  - apply Hidle.
Qed.

Lemma perform_defaultsHaveBefore (call : Game.Call) g :
  defaultsHaveBefore g -> defaultsHaveBefore (Game.perform random call g).
Proof.
  intros Hg.
  assert (forall g', noDefaultSent g g' -> defaultsHaveBefore g') as Hquiet.
  { intros g' [_ (new & Ho & Hn)] t. rewrite Ho.
    intros [Ht|Ht]%elem_of_app; [by apply Hg | by apply Hn in Ht]. }
  assert (forall command g0, Game.output g0 = Game.output g ->
            defaultsHaveBefore (Game.runStepWithCommand random command g0).2)
    as Hstep.
  { intros command g0 Ho.
    destruct (runStepWithCommand_sends command g0) as (new & Hout & Hn).
    intros t. rewrite Hout, Ho.
    intros [Ht|Ht]%elem_of_app; [by apply Hg|].
    by rewrite (Hn t Ht). }
  destruct call; simpl.
  - unfold Game.runStep. eff_unfold.
    destruct (waitForInput (Game.input g)) as [c i']. by apply Hstep.
  - by apply Hstep.
  - apply Hquiet, (execute_noDefaultSent StartGame).
  - apply Hquiet, (execute_noDefaultSent FinishGameCommandImpl).
  - apply Hquiet, (execute_noDefaultSent LaunchBall).
  - apply Hquiet, (execute_noDefaultSent CauseLottery).
Qed.

Lemma performAll_defaultsHaveBefore (calls : list Game.Call) g :
  defaultsHaveBefore g -> defaultsHaveBefore (Game.performAll random calls g).
Proof.
  revert g. induction calls as [|call calls IH]; intros g Hg; simpl; [done|].
  by apply IH, perform_defaultsHaveBefore.
Qed.

(** C10.  The transitions [runStepWithCommand] passes to [output.default]
    carry in [before] the state the game had when the step began; and
    whatever is called on a game after its construction, no [default]
    notification it sends has [before = null]. *)
Theorem default_transition_has_before :
  (forall (command : option CommandType) g,
      exists new,
        Game.output (Game.runStepWithCommand random command g).2
        = Game.output g ++ new
        /\ forall t, OutDefault t ∈ new -> before t = Some (Game.state g))
  /\ (forall (config : Config.t) (input : I) g (calls : list Game.Call),
        Game.new config input = Ok g ->
        forall t, OutDefault t ∈ Game.output (Game.performAll random calls g) ->
                  before t <> None).
Proof.
  split; [apply runStepWithCommand_sends|].
  intros config input g calls Hnew.
  apply performAll_defaultsHaveBefore.
  unfold Game.new in Hnew.
  destruct (SlotProducer.new _ _); [|discriminate].
  destruct (Config.validate config); [|discriminate].
  injection Hnew as <-. by intros t Ht%elem_of_nil.
Qed.
End GameProperties.

(* ====================================================================== *)
(** * Properties of the slot producer *)
(* ====================================================================== *)

(** ** Arrays read and written within their bounds *)

Lemma jsGet_lookup {T} (array : JsArray T) (i : Z) (cell : option T) :
  0 <= i -> array !! Z.to_nat i = Some cell -> jsGet array i = cell.
Proof.
  intros Hi Hcell. unfold jsGet.
  destruct (Z.ltb_spec i 0); [lia|]. by rewrite Hcell.
Qed.

Lemma jsGet_fmap_Some {T} (l : list T) (i : Z) :
  0 <= i -> jsGet (Some <$> l) i = l !! Z.to_nat i.
Proof.
  intros Hi. unfold jsGet. destruct (Z.ltb_spec i 0); [lia|].
  rewrite list_lookup_fmap. by destruct (l !! Z.to_nat i).
Qed.

Lemma jsSet_insert {T} (array : JsArray T) (i : Z) (v : option T) :
  0 <= i < Z.of_nat (length array) -> jsSet array i v = <[Z.to_nat i := v]> array.
Proof.
  intros Hi. unfold jsSet.
  destruct (Z.ltb_spec i 0); [lia|].
  destruct (Z.ltb_spec i (Z.of_nat (length array))); [done | lia].
Qed.

Lemma jsSlice_take {T} (array : JsArray T) (p : Z) :
  0 <= p <= Z.of_nat (length array) -> jsSlice array 0 p = take (Z.to_nat p) array.
Proof.
  intros Hp. unfold jsSlice. simpl.
  destruct (Z.ltb_spec p 0); [lia|].
  rewrite Z.min_l, Z.min_l by lia. rewrite Z.sub_0_r. by rewrite drop_0.
Qed.

Lemma jsSlice_drop {T} (array : JsArray T) (p : Z) :
  0 <= p <= Z.of_nat (length array) ->
  jsSlice array p (Z.of_nat (length array)) = drop (Z.to_nat p) array.
Proof.
  intros Hp. unfold jsSlice.
  destruct (Z.ltb_spec p 0); [lia|].
  destruct (Z.ltb_spec (Z.of_nat (length array)) 0); [lia|].
  rewrite Z.min_l, Z.min_l by lia.
  apply take_ge. rewrite length_drop. lia.
Qed.

(** ** Swapping two cells permutes the array *)

Lemma insert_head_Permutation {T} (l : list T) (j : nat) (x b : T) :
  l !! j = Some b -> b :: <[j := x]> l ≡ₚ x :: l.
Proof.
  revert j. induction l as [|y l IH]; intros [|j] Hj; simplify_eq/=.
  - apply perm_swap.
  - rewrite (perm_swap y b). rewrite (IH j Hj). apply perm_swap.
Qed.

Lemma swap_Permutation {T} (l : list T) (i j : nat) (a b : T) :
  l !! i = Some a -> l !! j = Some b -> <[j := a]> (<[i := b]> l) ≡ₚ l.
Proof.
  revert i j. induction l as [|y l IH]; intros [|i] [|j] Hi Hj; simplify_eq/=.
  - done.
  - by apply insert_head_Permutation.
  - by apply insert_head_Permutation.
  - f_equiv. by apply IH.
Qed.

Lemma jsSwap_Permutation {T} (array : JsArray T) (i j : Z) :
  0 <= i < Z.of_nat (length array) ->
  0 <= j < Z.of_nat (length array) ->
  jsSet (jsSet array i (jsGet array j)) j (jsGet array i) ≡ₚ array.
Proof.
  intros Hi Hj.
  destruct (lookup_lt_is_Some_2 array (Z.to_nat i)) as [a Ha]; [lia|].
  destruct (lookup_lt_is_Some_2 array (Z.to_nat j)) as [b Hb]; [lia|].
  rewrite (jsGet_lookup array i a), (jsGet_lookup array j b) by (done || lia).
  rewrite (jsSet_insert array i) by done.
  rewrite jsSet_insert by (rewrite length_insert; done).
  by apply swap_Permutation.
Qed.

Section SlotProperties.
Variable random : nat -> Q.

(** [Math.random()] returns a number in the interval [0, 1). *)
Hypothesis random_unit : forall i, (0 <= random i < 1)%Q.

Lemma floorRandomTimes_range (k : Z) (drawn : nat) :
  0 < k ->
  exists j, SlotProducer.floorRandomTimes random k drawn = (Ok j, S drawn)
            /\ 0 <= j < k.
Proof.
  intros Hk. exists (Qfloor (random drawn * inject_Z k)). split; [done|].
  destruct (random_unit drawn) as [Hlo Hhi].
  assert (inject_Z 0 < inject_Z k)%Q as HkQ by (by rewrite <- Zlt_Qlt).
  split.
  - change 0 with (Qfloor 0). apply Qfloor_resp_le.
    apply Qmult_le_0_compat; [done | by apply Qlt_le_weak].
  - rewrite Zlt_Qlt. eapply Qle_lt_trans; [apply Qfloor_le|].
    rewrite <- (Qmult_1_l (inject_Z k)) at 2.
    by apply Qmult_lt_compat_r.
Qed.

Lemma shuffleFrom_Permutation {T} (i : nat) (array : JsArray T) (drawn : nat) :
  (i < length array)%nat ->
  exists result,
    SlotProducer.shuffleFrom random i array drawn = (Ok result, (drawn + i)%nat)
    /\ result ≡ₚ array.
Proof.
  revert array drawn. induction i as [|i IH]; intros array drawn Hi.
  - exists array. by rewrite Nat.add_0_r.
  - destruct (floorRandomTimes_range (Z.of_nat (S i) + 1) drawn)
      as (j & Hj & Hrange); [lia|].
    set (swapped := jsSet (jsSet array (Z.of_nat (S i)) (jsGet array j)) j
                          (jsGet array (Z.of_nat (S i)))).
    assert (swapped ≡ₚ array) as Hswap by (apply jsSwap_Permutation; lia).
    destruct (IH swapped (S drawn)) as (result & Hrun & Hperm).
    { rewrite Hswap. lia. }
    exists result. split; [|by rewrite Hperm].
    cbn [SlotProducer.shuffleFrom]. eff_unfold. rewrite Hj.
    fold swapped. rewrite Hrun. f_equal. lia.
Qed.

Lemma shuffleArray_Permutation {T} (array : JsArray T) (drawn : nat) :
  exists result drawn',
    SlotProducer.shuffleArray random array drawn = (Ok result, drawn')
    /\ result ≡ₚ array.
Proof.
  unfold SlotProducer.shuffleArray. destruct array as [|cell array].
  - by exists [], drawn.
  - destruct (shuffleFrom_Permutation (length (cell :: array) - 1)
                (cell :: array) drawn) as (result & Hrun & Hperm);
      [simpl; lia | eauto].
Qed.

Lemma pushRandom_spec {T} (cnt : nat) (from result : JsArray T) (drawn : nat) :
  (0 < length from)%nat ->
  exists new drawn',
    SlotProducer.pushRandom random cnt from result drawn
    = (Ok (result ++ new), drawn')
    /\ length new = cnt
    /\ forall x, x ∈ new -> x ∈ from.
Proof.
  intros Hfrom. revert result drawn.
  induction cnt as [|cnt IH]; intros result drawn.
  - exists [], drawn. rewrite app_nil_r. split; [done|]. split; [done|].
    by intros x Hx%elem_of_nil.
  - destruct (floorRandomTimes_range (Z.of_nat (length from)) drawn)
      as (k & Hk & Hrange); [lia|].
    destruct (lookup_lt_is_Some_2 from (Z.to_nat k)) as [cell Hcell]; [lia|].
    destruct (IH (result ++ [jsGet from k]) (S drawn))
      as (new & drawn' & Hrun & Hlen & Hin).
    exists (cell :: new), drawn'.
    cbn [SlotProducer.pushRandom]. eff_unfold. rewrite Hk, Hrun.
    rewrite (jsGet_lookup from k cell), <- app_assoc by (done || lia).
    split; [done|]. split; [by rewrite <- Hlen|].
    intros x [->|Hx]%elem_of_cons; [|by apply Hin].
    by eapply list_elem_of_lookup_2.
Qed.

Lemma new_Ok (L : Z) (choices : list SlotSymbol) (self : SlotProducer.t) :
  SlotProducer.new L choices = Ok self ->
  self = SlotProducer.mk L choices /\ 2 <= Z.of_nat (length choices).
Proof.
  unfold SlotProducer.new.
  destruct (Z.ltb_spec (Z.of_nat (length choices)) 2); [discriminate|].
  by intros [= <-].
Qed.

(** The index next to [i], on either side and wrapping around, is a valid
    index other than [i]. *)
Lemma shifted_index (len i delta : Z) :
  2 <= len -> 0 <= i < len -> delta = -1 \/ delta = 1 ->
  0 <= Z.rem (i + delta + len) len < len /\ Z.rem (i + delta + len) len <> i.
Proof.
  intros Hlen Hi Hdelta. rewrite Z.rem_mod_nonneg by lia.
  pose proof (Z.mod_pos_bound (i + delta + len) len ltac:(lia)) as Hbound.
  split; [done|]. intros Heq.
  pose proof (Z.div_mod (i + delta + len) len ltac:(lia)) as Hdiv.
  rewrite Heq in Hdiv.
  set (q := (i + delta + len) / len) in Hdiv.
  assert (q <= 0 \/ q = 1 \/ 2 <= q) as [Hq|[Hq|Hq]] by lia; nia.
Qed.

(** C8.  For a catalog of at least two pairwise-distinct symbols and any
    reel length, [produceFakeLose] returns exactly three symbols, the first
    equal to the third and different from the second. *)
Theorem produceFakeLose_near_miss (L : Z) (choices : list SlotSymbol)
  (self : SlotProducer.t) (drawn : nat) :
  SlotProducer.new L choices = Ok self ->
  NoDup choices ->
  exists (a b : SlotSymbol) (drawn' : nat),
    SlotProducer.produceFakeLose random self drawn
    = (Ok [Some a; Some b; Some a], drawn')
    /\ a <> b.
Proof.
  intros [-> Hlen]%new_Ok Hnodup.
  unfold SlotProducer.produceFakeLose. cbn [SlotProducer.choices].
  rewrite length_fmap.
  destruct (floorRandomTimes_range (Z.of_nat (length choices)) drawn)
    as (i & Hi & Hrange); [lia|].
  set (delta := if Qltb (random (S drawn)) (1 # 2) then -1 else 1).
  destruct (shifted_index (Z.of_nat (length choices)) i delta)
    as [Hshifted Hne]; [lia | lia | |].
  { unfold delta. destruct (Qltb _ _); auto. }
  destruct (lookup_lt_is_Some_2 choices (Z.to_nat i)) as [a Ha]; [lia|].
  destruct (lookup_lt_is_Some_2 choices
              (Z.to_nat (Z.rem (i + delta + Z.of_nat (length choices))
                               (Z.of_nat (length choices)))))
    as [b Hb]; [lia|].
  exists a, b, (S (S drawn)). split.
  - eff_unfold. rewrite Hi. unfold Lottery.mathRandom. fold delta.
    rewrite !jsGet_fmap_Some by lia. by rewrite Ha, Hb.
  - intros ->. pose proof (NoDup_lookup _ _ _ _ Hnodup Ha Hb). lia.
Qed.

(** An array all of whose cells come from [Some <$> choices] holds symbols. *)
Lemma cells_are_symbols (choices : list SlotSymbol) (array : SlotResult) :
  (forall cell, cell ∈ array -> cell ∈ (Some <$> choices)) ->
  exists symbols : list SlotSymbol, array = Some <$> symbols.
Proof.
  induction array as [|cell array IH]; intros Hcells.
  - by exists [].
  - destruct IH as [symbols ->].
    { intros c Hc. apply Hcells. by right. }
    pose proof (Hcells cell ltac:(by left)) as (s & -> & _)%list_elem_of_fmap.
    by exists (s :: symbols).
Qed.

(** C7.  For a catalog of at least two pairwise-distinct symbols and a
    reel length [L >= 2], [produceLose] returns exactly [L] symbols, and
    they are not all the same symbol. *)
Theorem produceLose_not_all_identical (L : Z) (choices : list SlotSymbol)
  (self : SlotProducer.t) (drawn : nat) :
  SlotProducer.new L choices = Ok self ->
  NoDup choices ->
  2 <= L ->
  exists (symbols : list SlotSymbol) (drawn' : nat),
    SlotProducer.produceLose random self drawn = (Ok (Some <$> symbols), drawn')
    /\ Z.of_nat (length symbols) = L
    /\ ~ allIdentical symbols.
Proof.
  intros [-> Hlen]%new_Ok Hnodup HL.
  unfold SlotProducer.produceLose.
  cbn [SlotProducer.choices SlotProducer.length_].
  (* the catalog, shuffled *)
  destruct (shuffleArray_Permutation (Some <$> choices) drawn)
    as (ref & d1 & Hshuffle1 & Hperm1).
  assert (length ref = length choices) as Hreflen
    by (by rewrite Hperm1, length_fmap).
  assert (NoDup ref) as Hrefnodup.
  { rewrite Hperm1. apply (NoDup_fmap_2 _), Hnodup. }
  (* the cut point and the two groups *)
  destruct (floorRandomTimes_range (Z.of_nat (length ref) - 1) d1)
    as (p & Hp & Hprange); [lia|].
  set (cut := Z.to_nat (p + 1)).
  assert (0 < cut < length ref)%nat as Hcut by lia.
  (* how many symbols come from each group *)
  destruct (floorRandomTimes_range (L - 1) (S d1))
    as (c & Hc & Hcrange); [lia|].
  destruct (pushRandom_spec (Z.to_nat (c + 1)) (take cut ref) [] (S (S d1)))
    as (new1 & d2 & Hpush1 & Hlen1 & Hin1).
  { rewrite length_take. lia. }
  destruct (pushRandom_spec (Z.to_nat (L - (c + 1))) (drop cut ref) [] d2)
    as (new2 & d3 & Hpush2 & Hlen2 & Hin2).
  { rewrite length_drop. lia. }
  destruct (shuffleArray_Permutation (new1 ++ new2) d3)
    as (result & d4 & Hshuffle2 & Hperm2).
  (* every cell of the result is a symbol of the catalog *)
  destruct (cells_are_symbols choices result) as [symbols ->].
  { intros cell. rewrite Hperm2, <- Hperm1, <- (take_drop cut ref), !elem_of_app.
    intros [?|?]; [left; by apply Hin1 | right; by apply Hin2]. }
  exists symbols, d4. split; [|split].
  - eff_unfold. rewrite Hshuffle1, Hp.
    rewrite jsSlice_take, jsSlice_drop by lia. fold cut.
    rewrite Hc, Hpush1, Hpush2. exact Hshuffle2.
  - apply Permutation_length in Hperm2 as Hlen'.
    rewrite length_fmap, length_app in Hlen'. lia.
  - intros Hsame.
    destruct new1 as [|x1 new1]; [simpl in Hlen1; lia|].
    destruct new2 as [|x2 new2]; [simpl in Hlen2; lia|].
    assert (x1 ∈ take cut ref) as Hx1 by (apply Hin1; by left).
    assert (x2 ∈ drop cut ref) as Hx2 by (apply Hin2; by left).
    assert (x1 ∈ Some <$> symbols) as (s1 & -> & Hs1)%list_elem_of_fmap
      by (rewrite Hperm2; apply elem_of_app; left; by left).
    assert (x2 ∈ Some <$> symbols) as (s2 & -> & Hs2)%list_elem_of_fmap
      by (rewrite Hperm2; apply elem_of_app; right; by left).
    rewrite <- (take_drop cut ref) in Hrefnodup.
    apply NoDup_app in Hrefnodup as (_ & Hdisjoint & _).
    apply (Hdisjoint (Some s1) Hx1).
    by rewrite (Hsame s1 s2 Hs1 Hs2).
Qed.
End SlotProperties.

(* ====================================================================== *)
(** * The properties at work on the example configuration *)
(* ====================================================================== *)

Lemma cyclingRandom_unit (i : nat) : (0 <= cyclingRandom i < 1)%Q.
Proof.
  unfold cyclingRandom, Qle, Qlt. simpl.
  pose proof (Nat.mod_upper_bound i 10). lia.
Qed.

Lemma catalog_NoDup : NoDup [1; 2; 3; 4; 5; 6; 7; 8; 9].
Proof. apply (bool_decide_unpack _). vm_compute. exact I. Qed.

(** One cycle of the example game: a start, a launch that lands in the start
    hole and wins the lottery, a launch that is blocked by the spinning
    flag, and an unknown command. *)
Example example_session :
  let g := Game.performAll cyclingRandom
             [Game.CallRunStepWithCommand (Some (CommandString "StartGame"));
              Game.CallRunStepWithCommand (Some (Control (LaunchBallFlow true)));
              Game.CallRunStepWithCommand (Some (CommandString "LaunchBall"));
              Game.CallRunStepWithCommand (Some (CommandString "bogus"))]
             (gameIn CONFIG_EXAMPLE Uninitialized false) in
  Game.output g
  = [OutStartGame (Normal 1000);
     OutDefault (mkTransition (Some Uninitialized) (Normal 1000));
     OutLotteryNormal (LotteryResult.Win Win.FakeWin)
                      ([Some 2; Some 1; Some 2], Some [Some 4; Some 4; Some 4]);
     OutDefault (mkTransition (Some (Normal 1000)) (Rush 1014 300 1))]
  /\ Game.state g = Rush 1014 300 1
  /\ Game.isSlotSpinning g = true.
Proof. vm_compute. repeat split. Qed.

(** A whole session driven by [run]: start, three launches, finish, and the
    command that ends the loop. *)
Example example_run :
  let input :=
    JsInput.mk [Control StartGame; Control LaunchBall; Control LaunchBall;
                Control LaunchBall; Control FinishGameCommandImpl;
                Command.FinishGame] 0%nat in
  let '(r, g) := Game.run cyclingRandom 10
                   (Game.withInput input (gameIn CONFIG_EXAMPLE Uninitialized false)) in
  r = Ok true
  /\ Game.state g = Uninitialized
  /\ Game.output g
     = [OutStartGame (Normal 1000);
        OutDefault (mkTransition (Some Uninitialized) (Normal 1000));
        OutDefault (mkTransition (Some (Normal 1000)) (Normal 999));
        OutDefault (mkTransition (Some (Normal 999)) (Normal 998));
        OutDefault (mkTransition (Some (Normal 998)) (Normal 997));
        OutFinishGame (Normal 997);
        OutDefault (mkTransition (Some (Normal 997)) Uninitialized)].
Proof. vm_compute. repeat split. Qed.

Example example_launchBallFlow :
  LaunchBallFlowProducer.produce cyclingRandom
    (LaunchBallFlowProducer.mk START_HOLE_PROBABILITY_EXAMPLE) 0%nat
  = (Ok (LaunchBallFlow true), 1%nat).
Proof. vm_compute. reflexivity. Qed.

(** A spin whose draws all lose: the state stays, the flag is set. *)
Example example_losing_spin :
  let '(r, g) := Game.causeLottery (constantRandom (99 # 100))
                   (gameIn CONFIG_EXAMPLE (Normal 10) false) in
  r = Ok tt
  /\ Game.state g = Normal 10
  /\ Game.isSlotSpinning g = true
  /\ exists reel, Game.output g
                  = [OutLotteryNormal (LotteryResult.Lose Lose.Default) (reel, None)].
Proof. vm_compute. repeat split. by eexists. Qed.

Example example_produceLose :
  SlotProducer.produceLose cyclingRandom Game.slotProducer 0%nat
  = (Ok [Some 8; Some 9; Some 8], 15%nat).
Proof. vm_compute. reflexivity. Qed.

(** The example configuration meets the bounds: after a start, a win and a launch
    the fields are still in range. *)
Lemma reachable_fields_nonnegative_witness :
  Config.validate CONFIG_EXAMPLE = Ok tt
  /\ applyOps (Config.balls CONFIG_EXAMPLE) [OpInit; OpTriggerRush; OpLaunchBall]
              Uninitialized = Ok (Rush 1015 299 1)
  /\ fieldsNonNegative (Rush 1015 299 1).
Proof.
  split; [reflexivity|]. split; [reflexivity|].
  apply (reachable_fields_nonnegative CONFIG_EXAMPLE
           [OpInit; OpTriggerRush; OpLaunchBall] (Rush 1015 299 1));
    [reflexivity | simpl; lia | simpl; lia | reflexivity].
Defined.

(** The four returning cases of [launchBall], on concrete states. *)
Lemma launchBall_spec_witness :
  GameState.launchBall (Normal 5) = Ok (Normal 4)
  /\ GameState.launchBall (Normal 1) = Ok Uninitialized
  /\ GameState.launchBall (Rush 7 3 2) = Ok (Rush 7 2 2)
  /\ GameState.launchBall (Rush 7 1 2) = Ok (Normal 7).
Proof.
  destruct launchBall_spec as (_ & Hnormal & Hlast & Hrush & Hrushlast).
  split; [apply (Hnormal 5); lia|].
  split; [apply (Hlast 1); lia|].
  split; [apply (Hrush 7 3 2); lia | apply (Hrushlast 7 1 2); lia].
Defined.

(** A win drawn from [Normal 10] under the example configuration. *)
Lemma causeLottery_normal_win_witness :
  exists g',
    Game.causeLottery cyclingRandom (gameIn CONFIG_EXAMPLE (Normal 10) false)
    = (Ok tt, g')
    /\ Game.state g' = Rush 25 300 1.
Proof.
  apply (causeLottery_normal_win cyclingRandom
           (gameIn CONFIG_EXAMPLE (Normal 10) false) 10 Win.FakeWin);
    reflexivity.
Defined.

(** A continuation function that is constantly 2 makes the draw throw; the
    example's decay does not. *)
Lemma lotteryRushContinue_spec_witness :
  (Lottery.lotteryRushContinue cyclingRandom
     (Config.probability (exampleWithContinue 2)) 1 0%nat).1 = Throw ProbabilityError
  /\ Lottery.lotteryRushContinue cyclingRandom (Config.probability CONFIG_EXAMPLE) 3 0%nat
     = Lottery.lottery cyclingRandom
         (SlotProbability.mk ((8 # 10) * Qpower (6 # 10) (3 - 1)) (25 # 100) (1 # 10)) 0%nat.
Proof.
  split.
  - apply (proj1 (lotteryRushContinue_spec cyclingRandom
                    (Config.probability (exampleWithContinue 2)) 1 0%nat)).
    reflexivity.
  - apply (proj2 (lotteryRushContinue_spec cyclingRandom
                    (Config.probability CONFIG_EXAMPLE) 3 0%nat)).
    intros Hlt. vm_compute in Hlt. discriminate Hlt.
Defined.

(** A rush win under a continuation function that is constantly 2: the error
    is swallowed and the state stays. *)
Lemma causeLottery_probability_error_witness :
  exists g',
    Game.causeLottery cyclingRandom
      (gameIn (exampleWithContinue 2) (Rush 1015 300 1) false) = (Ok tt, g')
    /\ Game.state g' = Rush 1015 300 1.
Proof.
  eapply (causeLottery_probability_error cyclingRandom
            (gameIn (exampleWithContinue 2) (Rush 1015 300 1) false)
            1015 300 1 Win.FakeWin);
    vm_compute; reflexivity.
Defined.

(** A rush win followed by a continuation win (streak 1) and by a continuation
    loss (streak 5). *)
Lemma causeLottery_rush_continue_witness :
  (exists g',
      Game.causeLottery cyclingRandom (gameIn CONFIG_EXAMPLE (Rush 1015 300 1) false)
      = (Ok tt, g')
      /\ Game.state g' = Rush 1030 600 2)
  /\ (exists g',
        Game.causeLottery cyclingRandom (gameIn CONFIG_EXAMPLE (Rush 1015 300 5) false)
        = (Ok tt, g')
        /\ Game.state g' = Rush 1030 300 5).
Proof.
  split.
  - eapply (causeLottery_rush_continue cyclingRandom
              (gameIn CONFIG_EXAMPLE (Rush 1015 300 1) false)
              1015 300 1 Win.FakeWin _ (LotteryResult.Win Win.Default));
      vm_compute; reflexivity.
  - eapply (causeLottery_rush_continue cyclingRandom
              (gameIn CONFIG_EXAMPLE (Rush 1015 300 5) false)
              1015 300 5 Win.FakeWin _ (LotteryResult.Lose Lose.Default));
      vm_compute; reflexivity.
Defined.

(** The reel of the game: three symbols out of nine. *)
Lemma produceLose_not_all_identical_witness :
  exists (symbols : list SlotSymbol) (drawn' : nat),
    SlotProducer.produceLose cyclingRandom Game.slotProducer 0%nat
    = (Ok (Some <$> symbols), drawn')
    /\ Z.of_nat (length symbols) = 3
    /\ ~ allIdentical symbols.
Proof.
  apply (produceLose_not_all_identical cyclingRandom cyclingRandom_unit
           3 [1; 2; 3; 4; 5; 6; 7; 8; 9] Game.slotProducer 0%nat);
    [reflexivity | exact catalog_NoDup | lia].
Defined.

(** The near miss of the game's reel. *)
Lemma produceFakeLose_near_miss_witness :
  exists (a b : SlotSymbol) (drawn' : nat),
    SlotProducer.produceFakeLose cyclingRandom Game.slotProducer 0%nat
    = (Ok [Some a; Some b; Some a], drawn')
    /\ a <> b.
Proof.
  apply (produceFakeLose_near_miss cyclingRandom cyclingRandom_unit
           3 [1; 2; 3; 4; 5; 6; 7; 8; 9] Game.slotProducer 0%nat);
    [reflexivity | exact catalog_NoDup].
Defined.

(** A game whose reel is spinning: the flag survives the calls and a launch is
    refused. *)
Lemma spinning_flag_guard_witness :
  Game.isSlotSpinning
    (Game.perform cyclingRandom Game.CallFinish (gameIn CONFIG_EXAMPLE (Normal 10) true))
  = true
  /\ Game.isSlotSpinning
       (Game.performAll cyclingRandom
          [Game.CallStart; Game.CallRunStep; Game.CallLaunchBall; Game.CallCauseLottery]
          (gameIn CONFIG_EXAMPLE (Normal 10) true))
     = true
  /\ Game.launchBall (gameIn CONFIG_EXAMPLE (Normal 10) true)
     = (Throw (PlainError "Cannot launch ball while slot is spinning"),
        gameIn CONFIG_EXAMPLE (Normal 10) true).
Proof.
  destruct (spinning_flag_guard cyclingRandom (I := JsInput.t))
    as (_ & Hcall & Hcalls & Hlaunch).
  split; [apply Hcall; reflexivity|].
  split; [apply Hcalls; reflexivity | apply Hlaunch; reflexivity].
Defined.

(** A freshly constructed game fed from a queue of commands. *)
Lemma default_transition_has_before_witness :
  Game.new CONFIG_EXAMPLE exampleInput
  = Ok (Game.withInput exampleInput (gameIn CONFIG_EXAMPLE Uninitialized false))
  /\ forall t,
       OutDefault t
       ∈ Game.output
           (Game.performAll cyclingRandom
              [Game.CallRunStep; Game.CallRunStep; Game.CallRunStep;
               Game.CallRunStepWithCommand (Some (CommandString "LaunchBall"))]
              (Game.withInput exampleInput
                 (gameIn CONFIG_EXAMPLE Uninitialized false))) ->
       before t <> None.
Proof.
  split; [reflexivity|].
  apply (proj2 (default_transition_has_before cyclingRandom)
               CONFIG_EXAMPLE exampleInput).
  reflexivity.
Defined.

(* ====================================================================== *)
(** * Further properties: configuration *)
(* ====================================================================== *)

Lemma caughtErrors_throwIfAny (errors : list string) :
  caughtErrors (throwIfAny errors) = errors.
Proof. by destruct errors. Qed.

Lemma throwIfAny_cases (errors : list string) :
  (errors = [] /\ throwIfAny errors = Ok tt)
  \/ (errors <> [] /\ throwIfAny errors = Throw (ConfigError errors)).
Proof. destruct errors; [by left | by right]. Qed.

Lemma Qltb_false (a b : Q) : Qltb a b = false <-> (b <= a)%Q.
Proof. unfold Qltb. by rewrite negb_false_iff, Qle_bool_iff. Qed.



Lemma slotErrors_bound (p : SlotProbability.t) :
  (length (slotErrors p) <= 3)%nat
  /\ "initial balls must be greater than 0"%string ∉ slotErrors p.
Proof.
  unfold slotErrors, SlotProbability.validate.
  rewrite caughtErrors_throwIfAny.
  destruct (SlotProbability.outOfRange (SlotProbability.win p)),
    (SlotProbability.outOfRange (SlotProbability.fakeWin p)),
    (SlotProbability.outOfRange (SlotProbability.fakeLose p)); simpl;
    (split; [lia|]); rewrite ?elem_of_cons, elem_of_nil; intros H;
    repeat (destruct H as [H|H]; [discriminate H|]); done.
Qed.

Lemma Config_validate_unfold (c : Config.t) :
  Config.validate c
  = throwIfAny
      ((if BallsConfig.initBalls (Config.balls c) <? 1
        then ["initial balls must be greater than 0"%string] else [])
       ++ slotErrors (Probability.normal (Config.probability c))
       ++ slotErrors (Probability.rush (Config.probability c))
       ++ slotErrors (Probability.rushContinue (Config.probability c))).
Proof.
  unfold Config.validate, BallsConfig.validate, Probability.validate, slotErrors.
  by rewrite !caughtErrors_throwIfAny.
Qed.


(** X2.  When [Config.validate] rejects, what it throws is a [ConfigError]
    carrying between one and ten messages, all failures at once: the message
    about the initial balls is among them exactly when [initBalls < 1],
    whatever is wrong with the probabilities. *)
Theorem Config_validate_rejects (c : Config.t) (e : Error) :
  Config.validate c = Throw e ->
  exists errors,
    e = ConfigError errors
    /\ (1 <= length errors <= 10)%nat
    /\ ("initial balls must be greater than 0"%string ∈ errors
        <-> BallsConfig.initBalls (Config.balls c) < 1).
Proof.
  rewrite Config_validate_unfold.
  pose proof (slotErrors_bound (Probability.normal (Config.probability c)))
    as [Hn Hn'].
  pose proof (slotErrors_bound (Probability.rush (Config.probability c)))
    as [Hr Hr'].
  pose proof (slotErrors_bound (Probability.rushContinue (Config.probability c)))
    as [Hc Hc'].
  match goal with |- throwIfAny ?es = _ -> _ => set (errors := es) end.
  destruct (throwIfAny_cases errors) as [[_ ->]|[Hne ->]]; [discriminate|].
  intros [= <-]. exists errors. split; [done|]. split.
  - split; [destruct errors; [done | simpl; lia]|].
    unfold errors. rewrite !length_app.
    destruct (BallsConfig.initBalls (Config.balls c) <? 1); simpl; lia.
  - unfold errors. rewrite !elem_of_app.
    destruct (Z.ltb_spec (BallsConfig.initBalls (Config.balls c)) 1).
    + split; [done|]. intros _. left. by left.
    + split; [|lia]. rewrite elem_of_nil. tauto.
Qed.

(** The constructor of [Game] succeeds exactly when [Config.validate] does
    and otherwise throws what [Config.validate] throws; the game it builds
    is uninitialized, not spinning, has sent nothing, and keeps the balls
    economy and the probabilities of the configuration. *)
Theorem Game_new_validates {I : Type} {inputI : UserInput I}
  (config : Config.t) (input : I) :
  (Config.validate config = Ok tt ->
   Game.new config input
   = Ok (Game.mk None Uninitialized (Config.probability config)
                 (Config.balls config) false input [] 0%nat))
  /\ (forall e, Config.validate config = Throw e -> Game.new config input = Throw e)
  /\ (forall g, Game.new config input = Ok g ->
        Config.validate config = Ok tt
        /\ Game.state g = Uninitialized
        /\ Game.isSlotSpinning g = false
        /\ Game.output g = []).
Proof.
  unfold Game.new. cbn [SlotProducer.new length Z.of_nat Z.ltb Z.compare Pos.compare
                        Pos.compare_cont Pos.of_succ_nat Pos.succ].
  destruct (Config.validate config) as [[]|e'].
  - split; [done|]. split; [discriminate|]. by intros g [= <-].
  - split; [discriminate|]. split; [by intros e [= ->]|]. discriminate.
Qed.


(** A configuration that fails every check at once. *)
Lemma Config_validate_rejects_witness :
  exists errors,
    ConfigError
      ["initial balls must be greater than 0"%string;
       "win probability must be between 0.0 and 1.0"%string;
       "fake_lose probability must be between 0.0 and 1.0"%string]
    = ConfigError errors
    /\ (1 <= length errors <= 10)%nat
    /\ ("initial balls must be greater than 0"%string ∈ errors <-> 0 < 1).
Proof.
  apply (Config_validate_rejects
           (Config.mk (BallsConfig.mk 0 15 300)
              (Probability.mk (SlotProbability.mk 2 0 0) (SlotProbability.mk 0 0 0)
                              (SlotProbability.mk 0 0 (3 # 2)) (fun _ => 1%Q)))).
  reflexivity.
Defined.

(** The constructor on the example configuration and on one without balls. *)
Lemma Game_new_validates_witness :
  Game.new CONFIG_EXAMPLE exampleInput
  = Ok (Game.mk None Uninitialized (Config.probability CONFIG_EXAMPLE)
                (Config.balls CONFIG_EXAMPLE) false exampleInput [] 0%nat)
  /\ Game.new (exampleWithBalls (BallsConfig.mk 0 15 300)) exampleInput
     = Throw (ConfigError ["initial balls must be greater than 0"%string]).
Proof.
  split.
  - apply (proj1 (Game_new_validates CONFIG_EXAMPLE exampleInput)). reflexivity.
  - apply (proj1 (proj2 (Game_new_validates
                           (exampleWithBalls (BallsConfig.mk 0 15 300)) exampleInput))).
    reflexivity.
Defined.

(* ====================================================================== *)
(** * Further properties: the state machine over several steps *)
(* ====================================================================== *)











(* ====================================================================== *)
(** * Further properties: the lottery *)
(* ====================================================================== *)

Lemma Qpower_le_1 (q : Q) (k : Z) : (0 <= q <= 1)%Q -> 0 <= k -> (q ^ k <= 1)%Q.
Proof.
  intros Hq Hk. rewrite <- (Z2Nat.id k) by done.
  induction (Z.to_nat k) as [|j IH].
  - by rewrite Qpower_0_r.
  - rewrite Nat2Z.inj_succ, <- Z.add_1_r, Qpower_plus', Qpower_1_r by lia.
    rewrite <- (Qmult_1_l 1).
    apply Qmult_le_compat_nonneg; [|done].
    split; [apply Qpower_0_le; tauto | done].
Qed.

Lemma Qpower_le_base (q : Q) (k : Z) : (0 <= q <= 1)%Q -> 1 <= k -> (q ^ k <= q)%Q.
Proof.
  intros Hq Hk. replace k with ((k - 1) + 1) by lia.
  rewrite Qpower_plus', Qpower_1_r by lia.
  apply (Qle_trans _ (1 * q)); [|rewrite Qmult_1_l; apply Qle_refl].
  apply Qmult_le_compat_nonneg; [|split; [tauto | apply Qle_refl]].
  split; [apply Qpower_0_le; tauto | apply Qpower_le_1; [done | lia]].
Qed.

Section LotteryFurther.
Variable random : nat -> Q.

Lemma lotteryRushContinue_cases (p : Probability.t) (n : Z) (drawn : nat) :
  let base := Probability.rushContinue p in
  let product := (SlotProbability.win base * Probability.rushContinueFn p n)%Q in
  ((1 < product)%Q
   /\ Lottery.lotteryRushContinue random p n drawn = (Throw ProbabilityError, drawn))
  \/ ((product <= 1)%Q
      /\ exists result,
           Lottery.lotteryRushContinue random p n drawn = (Ok result, S (S drawn))).
Proof.
  intros base product. unfold Lottery.lotteryRushContinue.
  fold base. fold product.
  destruct (Qltb 1 product) eqn:Hlt.
  - left. by apply Qltb_lt in Hlt.
  - right. apply Qltb_false in Hlt. split; [done|]. apply lottery_returns.
Qed.

(** X8.  A draw of [lottery] reads exactly two random numbers; it is a win
    exactly when the first is below [win], a fake win when moreover the
    second is below [fakeWin], and a fake lose when the first is not below
    [win] and the second is below [fakeLose]. *)
Theorem lottery_outcome (sp : SlotProbability.t) (drawn : nat) :
  exists result,
    Lottery.lottery random sp drawn = (Ok result, S (S drawn))
    /\ (LotteryResult.isWin result = true
        <-> (random drawn < SlotProbability.win sp)%Q)
    /\ (result = LotteryResult.Win Win.FakeWin
        <-> (random drawn < SlotProbability.win sp)%Q
            /\ (random (S drawn) < SlotProbability.fakeWin sp)%Q)
    /\ (result = LotteryResult.Lose Lose.FakeLose
        <-> ~ (random drawn < SlotProbability.win sp)%Q
            /\ (random (S drawn) < SlotProbability.fakeLose sp)%Q).
Proof.
  unfold Lottery.lottery, Lottery.mathRandom. eff_unfold.
  setoid_rewrite <- Qltb_lt.
  destruct (Qltb (random drawn) (SlotProbability.win sp)),
    (Qltb (random (S drawn)) (SlotProbability.fakeWin sp)) eqn:Hfw,
    (Qltb (random (S drawn)) (SlotProbability.fakeLose sp)) eqn:Hfl;
    eexists; (split; [reflexivity|]); simpl; rewrite ?Hfw, ?Hfl;
    repeat split; try done; intros []; done.
Qed.

(** X9.  When the base continuation probability is in [0, 1] and
    [rushContinueFn n] is in [0, 1], [lotteryRushContinue n] does not throw:
    it returns a result after two draws. *)
Theorem lotteryRushContinue_in_range (p : Probability.t) (n : Z) (drawn : nat) :
  inUnit (SlotProbability.win (Probability.rushContinue p)) ->
  inUnit (Probability.rushContinueFn p n) ->
  exists result,
    Lottery.lotteryRushContinue random p n drawn = (Ok result, S (S drawn)).
Proof.
  intros Hwin Hfn.
  destruct (lotteryRushContinue_cases p n drawn) as [[Hlt _]|[_ Hok]]; [|done].
  exfalso. apply (Qlt_not_le _ _ Hlt).
  rewrite <- (Qmult_1_l 1). by apply Qmult_le_compat_nonneg.
Qed.

(** X10.  With the example configuration, whose continuation function is
    [0.6 ^ (n - 1)], [lotteryRushContinue n] throws [ProbabilityError]
    exactly for the streaks [n <= 0]: for every [n >= 1] it draws. *)
Theorem example_lotteryRushContinue_throws (n : Z) (drawn : nat) :
  (Lottery.lotteryRushContinue random (Config.probability CONFIG_EXAMPLE) n drawn).1
  = Throw ProbabilityError
  <-> n <= 0.
Proof.
  destruct (lotteryRushContinue_cases (Config.probability CONFIG_EXAMPLE) n drawn)
    as [[Hlt ->]|[Hle [result ->]]]; simpl in *.
  - split; [|done]. intros _.
    destruct (Z.le_gt_cases n 0) as [|Hn]; [done|]. exfalso.
    apply (Qlt_not_le _ _ Hlt).
    apply (Qle_trans _ ((8 # 10) * 1)); [|discriminate].
    apply Qmult_le_compat_nonneg; [split; [discriminate | apply Qle_refl]|].
    split; [by apply Qpower_0_le | apply Qpower_le_1; [split; discriminate | lia]].
  - split; [discriminate|]. intros Hn. exfalso.
    apply (Qle_not_lt _ _ Hle).
    replace (n - 1) with (- (1 - n)) by lia.
    rewrite Qpower_opp.
    assert (0 < (6 # 10) ^ (1 - n))%Q as Hpos by (by apply Qpower_0_lt).
    apply Qlt_shift_div_l; [done|]. rewrite Qmult_1_l.
    apply (Qle_lt_trans _ (6 # 10)); [|reflexivity].
    apply Qpower_le_base; [split; discriminate | lia].
Qed.
End LotteryFurther.

Section LotteryCertain.
Variable random : nat -> Q.
Hypothesis random_unit : forall i, (0 <= random i < 1)%Q.

(** X11.  With [Math.random()] in [0, 1): a [win] probability of 1 or more
    makes every draw a win and one of 0 or less makes every draw a loss;
    likewise a [fakeWin] of 0 or less never yields a fake win and a
    [fakeLose] of 0 or less never yields a fake lose. *)
Theorem lottery_certain (sp : SlotProbability.t) (drawn : nat) :
  let result := (Lottery.lottery random sp drawn).1 in
  ((1 <= SlotProbability.win sp)%Q -> exists w, result = Ok (LotteryResult.Win w))
  /\ ((SlotProbability.win sp <= 0)%Q -> exists l, result = Ok (LotteryResult.Lose l))
  /\ ((SlotProbability.fakeWin sp <= 0)%Q ->
      result <> Ok (LotteryResult.Win Win.FakeWin))
  /\ ((SlotProbability.fakeLose sp <= 0)%Q ->
      result <> Ok (LotteryResult.Lose Lose.FakeLose)).
Proof.
  destruct (random_unit drawn) as [Hlo Hhi].
  destruct (random_unit (S drawn)) as [Hlo' Hhi'].
  unfold Lottery.lottery, Lottery.mathRandom. eff_unfold. simpl.
  destruct (Qltb (random drawn) (SlotProbability.win sp)) eqn:Hwin;
    [apply Qltb_lt in Hwin | apply Qltb_false in Hwin]; simpl.
  - destruct (Qltb (random (S drawn)) (SlotProbability.fakeWin sp)) eqn:Hf;
      [apply Qltb_lt in Hf | clear Hf];
      (split; [eauto|]); (split; [intros Hle; exfalso;
        apply (Qlt_not_le _ _ Hwin); by eapply Qle_trans|]);
      (split; [|done]); [|done].
    intros Hle. exfalso. apply (Qlt_not_le _ _ Hf). by eapply Qle_trans.
  - destruct (Qltb (random (S drawn)) (SlotProbability.fakeLose sp)) eqn:Hf;
      [apply Qltb_lt in Hf | clear Hf];
      (split; [intros Hge; exfalso;
        apply (Qlt_not_le _ _ Hhi); by eapply Qle_trans|]);
      (split; [eauto|]); (split; [done|]); [|done].
    intros Hle. exfalso. apply (Qlt_not_le _ _ Hf). by eapply Qle_trans.
Qed.
End LotteryCertain.

(** A probability of 1 always wins, one of 0 always loses. *)
Lemma lottery_certain_witness :
  (exists w, (Lottery.lottery cyclingRandom (SlotProbability.mk 1 (1 # 2) 0) 0%nat).1
             = Ok (LotteryResult.Win w))
  /\ (exists l, (Lottery.lottery cyclingRandom (SlotProbability.mk 0 0 (1 # 2)) 0%nat).1
                = Ok (LotteryResult.Lose l)).
Proof.
  split.
  - apply (proj1 (lottery_certain cyclingRandom cyclingRandom_unit
                    (SlotProbability.mk 1 (1 # 2) 0) 0%nat)).
    discriminate.
  - apply (proj1 (proj2 (lottery_certain cyclingRandom cyclingRandom_unit
                           (SlotProbability.mk 0 0 (1 # 2)) 0%nat))).
    discriminate.
Defined.

(** A continuation function that is constantly 1/2. *)
Lemma lotteryRushContinue_in_range_witness :
  exists result,
    Lottery.lotteryRushContinue cyclingRandom
      (Config.probability (exampleWithContinue (1 # 2))) 7 0%nat
    = (Ok result, 2%nat).
Proof.
  apply (lotteryRushContinue_in_range cyclingRandom
           (Config.probability (exampleWithContinue (1 # 2))) 7 0%nat);
    split; discriminate.
Defined.

(** The example configuration at the streaks 0 and 1. *)
Lemma example_lotteryRushContinue_throws_witness :
  (Lottery.lotteryRushContinue cyclingRandom (Config.probability CONFIG_EXAMPLE) 0 0%nat).1
  = Throw ProbabilityError
  /\ (Lottery.lotteryRushContinue cyclingRandom (Config.probability CONFIG_EXAMPLE) 1 0%nat).1
     <> Throw ProbabilityError.
Proof.
  split.
  - apply (proj2 (example_lotteryRushContinue_throws cyclingRandom 0 0%nat)). lia.
  - intros Hthrow.
    apply (proj1 (example_lotteryRushContinue_throws cyclingRandom 1 0%nat)) in Hthrow.
    lia.
Defined.

(* ====================================================================== *)
(** * Further properties: the reels *)
(* ====================================================================== *)

Lemma allIdentical_replicate {T} (n : nat) (x : T) : allIdentical (replicate n x).
Proof.
  intros a b Ha%elem_of_replicate Hb%elem_of_replicate.
  destruct Ha as [-> _], Hb as [-> _]. done.
Qed.

Lemma fmap_Some_elem_of {T} (l : list T) (x : T) : Some x ∈ (Some <$> l) <-> x ∈ l.
Proof.
  rewrite list_elem_of_fmap. split; [by intros (y & [= ->] & Hy) | eauto].
Qed.

Section ReelProperties.
Variable random : nat -> Q.
Hypothesis random_unit : forall i, (0 <= random i < 1)%Q.

Lemma produceWin_line (L : Z) (choices : list SlotSymbol) (self : SlotProducer.t)
  (drawn : nat) :
  SlotProducer.new L choices = Ok self ->
  exists s,
    s ∈ choices
    /\ SlotProducer.produceWin random self drawn
       = (if L <? 0 then Throw RangeError
          else Ok (replicate (Z.to_nat L) (Some s)), S drawn).
Proof.
  intros [-> Hlen]%new_Ok.
  destruct (floorRandomTimes_range random random_unit
              (Z.of_nat (length choices)) drawn) as (k & Hk & Hrange); [lia|].
  destruct (lookup_lt_is_Some_2 choices (Z.to_nat k)) as [s Hs]; [lia|].
  exists s. split; [by eapply list_elem_of_lookup_2|].
  unfold SlotProducer.produceWin. cbn [SlotProducer.choices SlotProducer.length_].
  eff_unfold. rewrite Hk, jsGet_fmap_Some, Hs by lia.
  by destruct (L <? 0).
Qed.

Lemma produceFakeLose_reel (L : Z) (choices : list SlotSymbol)
  (self : SlotProducer.t) (drawn : nat) :
  SlotProducer.new L choices = Ok self ->
  NoDup choices ->
  exists a b,
    a ∈ choices /\ b ∈ choices /\ a <> b
    /\ SlotProducer.produceFakeLose random self drawn
       = (Ok [Some a; Some b; Some a], S (S drawn)).
Proof.
  intros [-> Hlen]%new_Ok Hnodup.
  unfold SlotProducer.produceFakeLose. cbn [SlotProducer.choices].
  rewrite length_fmap.
  destruct (floorRandomTimes_range random random_unit
              (Z.of_nat (length choices)) drawn) as (i & Hi & Hrange); [lia|].
  set (delta := if Qltb (random (S drawn)) (1 # 2) then -1 else 1).
  destruct (shifted_index (Z.of_nat (length choices)) i delta)
    as [Hshifted Hne]; [lia | lia | |].
  { unfold delta. destruct (Qltb _ _); auto. }
  destruct (lookup_lt_is_Some_2 choices (Z.to_nat i)) as [a Ha]; [lia|].
  destruct (lookup_lt_is_Some_2 choices
              (Z.to_nat (Z.rem (i + delta + Z.of_nat (length choices))
                               (Z.of_nat (length choices)))))
    as [b Hb]; [lia|].
  exists a, b.
  split; [by eapply list_elem_of_lookup_2|].
  split; [by eapply list_elem_of_lookup_2|]. split.
  - intros ->. pose proof (NoDup_lookup _ _ _ _ Hnodup Ha Hb). lia.
  - eff_unfold. rewrite Hi. unfold Lottery.mathRandom. fold delta.
    rewrite !jsGet_fmap_Some by lia. by rewrite Ha, Hb.
Qed.

Lemma produceLose_reel (L : Z) (choices : list SlotSymbol)
  (self : SlotProducer.t) (drawn : nat) :
  SlotProducer.new L choices = Ok self ->
  NoDup choices ->
  2 <= L ->
  exists (symbols : list SlotSymbol) (drawn' : nat),
    SlotProducer.produceLose random self drawn = (Ok (Some <$> symbols), drawn')
    /\ Z.of_nat (length symbols) = L
    /\ ~ allIdentical symbols
    /\ forall x, x ∈ symbols -> x ∈ choices.
Proof.
  intros [-> Hlen]%new_Ok Hnodup HL.
  unfold SlotProducer.produceLose.
  cbn [SlotProducer.choices SlotProducer.length_].
  destruct (shuffleArray_Permutation random random_unit (Some <$> choices) drawn)
    as (ref & d1 & Hshuffle1 & Hperm1).
  assert (length ref = length choices) as Hreflen
    by (by rewrite Hperm1, length_fmap).
  assert (NoDup ref) as Hrefnodup.
  { rewrite Hperm1. apply (NoDup_fmap_2 _), Hnodup. }
  destruct (floorRandomTimes_range random random_unit
              (Z.of_nat (length ref) - 1) d1) as (p & Hp & Hprange); [lia|].
  set (cut := Z.to_nat (p + 1)).
  assert (0 < cut < length ref)%nat as Hcut by lia.
  destruct (floorRandomTimes_range random random_unit (L - 1) (S d1))
    as (c & Hc & Hcrange); [lia|].
  destruct (pushRandom_spec random random_unit (Z.to_nat (c + 1))
              (take cut ref) [] (S (S d1)))
    as (new1 & d2 & Hpush1 & Hlen1 & Hin1).
  { rewrite length_take. lia. }
  destruct (pushRandom_spec random random_unit (Z.to_nat (L - (c + 1)))
              (drop cut ref) [] d2)
    as (new2 & d3 & Hpush2 & Hlen2 & Hin2).
  { rewrite length_drop. lia. }
  destruct (shuffleArray_Permutation random random_unit (new1 ++ new2) d3)
    as (result & d4 & Hshuffle2 & Hperm2).
  assert (forall cell, cell ∈ result -> cell ∈ (Some <$> choices)) as Hcells.
  { intros cell. rewrite Hperm2, <- Hperm1, <- (take_drop cut ref), !elem_of_app.
    intros [?|?]; [left; by apply Hin1 | right; by apply Hin2]. }
  destruct (cells_are_symbols choices result Hcells) as [symbols ->].
  exists symbols, d4. split; [|split; [|split]].
  - eff_unfold. rewrite Hshuffle1, Hp.
    rewrite jsSlice_take, jsSlice_drop by lia. fold cut.
    rewrite Hc, Hpush1, Hpush2. exact Hshuffle2.
  - apply Permutation_length in Hperm2 as Hlen'.
    rewrite length_fmap, length_app in Hlen'. lia.
  - intros Hsame.
    destruct new1 as [|x1 new1]; [simpl in Hlen1; lia|].
    destruct new2 as [|x2 new2]; [simpl in Hlen2; lia|].
    assert (x1 ∈ take cut ref) as Hx1 by (apply Hin1; by left).
    assert (x2 ∈ drop cut ref) as Hx2 by (apply Hin2; by left).
    assert (x1 ∈ Some <$> symbols) as (s1 & -> & Hs1)%list_elem_of_fmap
      by (rewrite Hperm2; apply elem_of_app; left; by left).
    assert (x2 ∈ Some <$> symbols) as (s2 & -> & Hs2)%list_elem_of_fmap
      by (rewrite Hperm2; apply elem_of_app; right; by left).
    rewrite <- (take_drop cut ref) in Hrefnodup.
    apply NoDup_app in Hrefnodup as (_ & Hdisjoint & _).
    apply (Hdisjoint (Some s1) Hx1).
    by rewrite (Hsame s1 s2 Hs1 Hs2).
  - intros x Hx. apply fmap_Some_elem_of, Hcells. by apply fmap_Some_elem_of.
Qed.
End ReelProperties.

Lemma allIdentical_fmap_Some {T} (l : list T) :
  allIdentical (Some <$> l) -> allIdentical l.
Proof.
  intros Hsame x y Hx Hy.
  assert (Some x = Some y) as [= ->]; [|done].
  by apply Hsame; apply fmap_Some_elem_of.
Qed.

Lemma nearMiss_not_allIdentical {T} (a b : T) :
  a <> b -> ~ allIdentical [Some a; Some b; Some a].
Proof.
  intros Hne Hsame. apply Hne.
  assert (Some a = Some b) as [= ->]; [|done].
  apply Hsame; [by left | right; by left].
Qed.

Lemma nearMiss_fromCatalog (choices : list SlotSymbol) (a b : SlotSymbol) :
  a ∈ choices -> b ∈ choices -> fromCatalog choices [Some a; Some b; Some a].
Proof.
  intros Ha Hb cell Hcell.
  repeat (apply elem_of_cons in Hcell as [->|Hcell]; [eauto|]).
  by apply elem_of_nil in Hcell.
Qed.

Lemma replicate_fromCatalog (choices : list SlotSymbol) (n : nat) (s : SlotSymbol) :
  s ∈ choices -> fromCatalog choices (replicate n (Some s)).
Proof. intros Hs cell [-> _]%elem_of_replicate. eauto. Qed.

Section ReelTheorems.
Variable random : nat -> Q.
Hypothesis random_unit : forall i, (0 <= random i < 1)%Q.

(** X12.  For a catalog the constructor accepts: with a reel length
    [0 <= L < 2^32], [produceWin] draws once and returns a matching line,
    [L] times one symbol of the catalog (the empty reel when [L = 0]); with
    [L < 0] it throws [RangeError], after the draw.  (Lengths from [2^32]
    on, which [Array] refuses too, are left out.) *)
Theorem produceWin_winning_line (L : Z) (choices : list SlotSymbol)
  (self : SlotProducer.t) (drawn : nat) :
  SlotProducer.new L choices = Ok self ->
  (0 <= L < 4294967296 ->
   exists reel,
     SlotProducer.produceWin random self drawn = (Ok reel, S drawn)
     /\ winningLine L choices reel)
  /\ (L < 0 ->
      SlotProducer.produceWin random self drawn = (Throw RangeError, S drawn)).
Proof.
  intros Hnew.
  destruct (produceWin_line random random_unit L choices self drawn Hnew)
    as (s & Hs & ->).
  destruct (Z.ltb_spec L 0); (split; [|done || lia]); [lia|].
  intros _. eexists. split; [done|]. by exists s.
Qed.

(** X13.  For a catalog of at least two pairwise-distinct symbols and a reel
    length [2 <= L < 2^32], [produce] always returns reels made of catalog
    symbols;
    the primary reel is a line of identical symbols exactly for a genuine win
    ([Win]/[Default]), where it is a matching line of length [L]; and a
    bonus reel is present exactly for a fake win, where it is a matching
    line of length [L]. *)
Theorem produce_reels (L : Z) (choices : list SlotSymbol) (self : SlotProducer.t)
  (result : LotteryResultType) (drawn : nat) :
  SlotProducer.new L choices = Ok self ->
  NoDup choices ->
  2 <= L < 4294967296 ->
  exists (reel : SlotResult) (bonus : option SlotResult) (drawn' : nat),
    SlotProducer.produce random self result drawn = (Ok (reel, bonus), drawn')
    /\ fromCatalog choices reel
    /\ (allIdentical reel <-> result = LotteryResult.Win Win.Default)
    /\ (result = LotteryResult.Win Win.Default -> winningLine L choices reel)
    /\ (is_Some bonus <-> result = LotteryResult.Win Win.FakeWin)
    /\ (forall b, bonus = Some b -> winningLine L choices b).
Proof.
  intros Hnew Hnodup HL.
  assert (forall d, exists s,
            s ∈ choices
            /\ SlotProducer.produceWin random self d
               = (Ok (replicate (Z.to_nat L) (Some s)), S d)) as Hwin.
  { intros d.
    destruct (produceWin_line random random_unit L choices self d Hnew)
      as (s & Hs & ->).
    exists s. split; [done|]. destruct (Z.ltb_spec L 0); [lia | done]. }
  pose proof (fun d => produceFakeLose_reel random random_unit L choices self d
                         Hnew Hnodup) as Hfake.
  destruct result as [[]|[]]; cbn [SlotProducer.produce]; eff_unfold.
  - destruct (Hwin drawn) as (s & Hs & ->).
    eexists _, None, _. split; [done|].
    split; [by apply replicate_fromCatalog|].
    split; [split; [done | intros _; apply allIdentical_replicate]|].
    split; [intros _; by exists s|].
    split; [split; [by intros [? ?] | done] | done].
  - destruct (Hfake drawn) as (a & b & Ha & Hb & Hne & ->).
    destruct (Hwin (S (S drawn))) as (s & Hs & ->).
    eexists _, (Some _), _. split; [done|].
    split; [by apply nearMiss_fromCatalog|].
    split; [split; [by intros ?%nearMiss_not_allIdentical | done]|].
    split; [done|].
    split; [split; [done | by eexists]|].
    intros ? [= <-]. by exists s.
  - destruct (produceLose_reel random random_unit L choices self drawn
                Hnew Hnodup (proj1 HL)) as (symbols & d' & -> & Hlen & Hdiff & Hin).
    eexists _, None, _. split; [done|].
    split.
    { intros cell (x & -> & Hx)%list_elem_of_fmap. eauto. }
    split; [split; [by intros ?%allIdentical_fmap_Some | done]|].
    split; [done|].
    split; [split; [by intros [? ?] | done] | done].
  - destruct (Hfake drawn) as (a & b & Ha & Hb & Hne & ->).
    eexists _, None, _. split; [done|].
    split; [by apply nearMiss_fromCatalog|].
    split; [split; [by intros ?%nearMiss_not_allIdentical | done]|].
    split; [done|].
    split; [split; [by intros [? ?] | done] | done].
Qed.

(** X14.  [shuffleArray] returns a permutation of the array it is given,
    after exactly [length - 1] draws (none for the empty array). *)
Theorem shuffleArray_permutes {T} (array : JsArray T) (drawn : nat) :
  exists result,
    SlotProducer.shuffleArray random array drawn
    = (Ok result, (drawn + (length array - 1))%nat)
    /\ result ≡ₚ array.
Proof.
  unfold SlotProducer.shuffleArray. destruct array as [|cell array].
  - exists []. by rewrite Nat.add_0_r.
  - apply (shuffleFrom_Permutation random random_unit). simpl. lia.
Qed.
End ReelTheorems.

(** The game's reel: a matching line of three. *)
Lemma produceWin_winning_line_witness :
  exists reel,
    SlotProducer.produceWin cyclingRandom Game.slotProducer 3%nat = (Ok reel, 4%nat)
    /\ winningLine 3 [1; 2; 3; 4; 5; 6; 7; 8; 9] reel.
Proof.
  apply (proj1 (produceWin_winning_line cyclingRandom cyclingRandom_unit
                  3 [1; 2; 3; 4; 5; 6; 7; 8; 9] Game.slotProducer 3%nat eq_refl)).
  lia.
Defined.

(** The game's reels for a fake win. *)
Lemma produce_reels_witness :
  exists (reel : SlotResult) (bonus : option SlotResult) (drawn' : nat),
    SlotProducer.produce cyclingRandom Game.slotProducer
      (LotteryResult.Win Win.FakeWin) 0%nat = (Ok (reel, bonus), drawn')
    /\ fromCatalog [1; 2; 3; 4; 5; 6; 7; 8; 9] reel
    /\ (allIdentical reel
        <-> LotteryResult.Win Win.FakeWin = LotteryResult.Win Win.Default)
    /\ (LotteryResult.Win Win.FakeWin = LotteryResult.Win Win.Default ->
        winningLine 3 [1; 2; 3; 4; 5; 6; 7; 8; 9] reel)
    /\ (is_Some bonus
        <-> LotteryResult.Win Win.FakeWin = LotteryResult.Win Win.FakeWin)
    /\ (forall b, bonus = Some b -> winningLine 3 [1; 2; 3; 4; 5; 6; 7; 8; 9] b).
Proof.
  apply (produce_reels cyclingRandom cyclingRandom_unit
           3 [1; 2; 3; 4; 5; 6; 7; 8; 9] Game.slotProducer
           (LotteryResult.Win Win.FakeWin) 0%nat);
    [reflexivity | exact catalog_NoDup | lia].
Defined.

(** The catalog of the game, shuffled. *)
Lemma shuffleArray_permutes_witness :
  exists result,
    SlotProducer.shuffleArray cyclingRandom
      (Some <$> [1; 2; 3; 4; 5; 6; 7; 8; 9]) 0%nat = (Ok result, 8%nat)
    /\ result ≡ₚ (Some <$> [1; 2; 3; 4; 5; 6; 7; 8; 9]).
Proof.
  exact (shuffleArray_permutes cyclingRandom cyclingRandom_unit
           (Some <$> [1; 2; 3; 4; 5; 6; 7; 8; 9]) 0%nat).
Defined.

(* ====================================================================== *)
(** * Further properties: one spin of the game *)
(* ====================================================================== *)

Section SpinProperties.
Variable random : nat -> Q.
Context {I : Type} {inputI : UserInput I}.
Implicit Types g : Game.t (I := I).

(** Everything [causeLottery] can do, by the outcome of its draws. *)
Lemma causeLottery_trace g :
  exists (r1 : LotteryResultType) (slot1 : SlotOutput) (d1 : nat),
    Lottery.lottery random (spinProbability g) (Game.drawn g)
    = (Ok r1, S (S (Game.drawn g)))
    /\ SlotProducer.produce random Game.slotProducer r1 (S (S (Game.drawn g)))
       = (Ok slot1, d1)
    /\ let quiet := afterSpin g d1 [spinNotification g r1 slot1] in
       let balls' b := b + BallsConfig.incrementalBalls (Game.config g) in
       let rush' rb := rb + BallsConfig.incrementalRush (Game.config g) in
       match r1, Game.state g with
       | LotteryResult.Lose _, _ => Game.causeLottery random g = (Ok tt, quiet)
       | LotteryResult.Win _, Uninitialized =>
           Game.causeLottery random g
           = (Throw (PlainError "Cannot trigger rush in uninitialized state"), quiet)
       | LotteryResult.Win _, Normal b =>
           Game.causeLottery random g
           = (Ok tt,
              Game.withState
                (Rush (balls' b) (BallsConfig.incrementalRush (Game.config g)) 1)
                quiet)
       | LotteryResult.Win _, Rush b rb n =>
           (Lottery.lotteryRushContinue random (Game.lottery g) n d1
            = (Throw ProbabilityError, d1)
            /\ Game.causeLottery random g = (Ok tt, quiet))
           \/ exists (r2 : LotteryResultType) (slot2 : SlotOutput) (d2 : nat),
                Lottery.lotteryRushContinue random (Game.lottery g) n d1
                = (Ok r2, S (S d1))
                /\ SlotProducer.produce random Game.slotProducer r2 (S (S d1))
                   = (Ok slot2, d2)
                /\ Game.causeLottery random g
                   = (Ok tt,
                      Game.withState
                        (if LotteryResult.isWin r2
                         then Rush (balls' b) (rush' rb) (n + 1)
                         else Rush (balls' b) rb n)
                        (afterSpin g d2 [spinNotification g r1 slot1;
                                         OutLotteryRushContinue r2 slot2]))
       end.
Proof.
  destruct (lottery_returns random (spinProbability g) (Game.drawn g)) as [r1 Hl].
  destruct (slotProducer_produce_returns random r1 (S (S (Game.drawn g))))
    as (slot1 & d1 & Hp).
  exists r1, slot1, d1. split; [done|]. split; [done|].
  unfold spinProbability, spinNotification, afterSpin in *. cbv zeta.
  unfold Game.causeLottery, Game.setSlotSpinning, Game.drawing, Game.notify,
    Lottery.lotteryRush, Lottery.lotteryNormal.
  eff_unfold.
  assert (forall (A : Type) (r : Result A) (g1 g2 : Game.t (I := I)),
            Game.beforeState g1 = Game.beforeState g2 ->
            Game.state g1 = Game.state g2 ->
            Game.lottery g1 = Game.lottery g2 ->
            Game.config g1 = Game.config g2 ->
            Game.isSlotSpinning g1 = Game.isSlotSpinning g2 ->
            Game.input g1 = Game.input g2 ->
            Game.output g1 = Game.output g2 ->
            Game.drawn g1 = Game.drawn g2 ->
            (r, g1) = (r, g2)) as Hsame.
  { intros A r [] []; simpl; by intros -> -> -> -> -> -> -> ->. }
  destruct r1 as [w1|l1];
    destruct (Game.state g) as [|b|b rb n] eqn:Hstate;
    cbn [GameState.isRush] in Hl;
    repeat (game_simpl; rewrite ?Hstate, ?Hl, ?Hp;
            cbn [GameState.isRush GameState.triggerRush]);
    try (apply Hsame; game_simpl; by rewrite ?Hstate).
  destruct (lotteryRushContinue_cases random (Game.lottery g) n d1)
    as [[_ Hc]|[_ [r2 Hc]]]; rewrite Hc; game_simpl.
  - left. split; [done|]. apply Hsame; game_simpl; by rewrite ?Hstate.
  - right. destruct (slotProducer_produce_returns random r2 (S (S d1)))
      as (slot2 & d2 & Hp2).
    exists r2, slot2, d2. split; [done|]. split; [done|].
    rewrite Hp2.
    destruct r2;
      repeat (game_simpl; rewrite ?Hstate;
              cbn [GameState.triggerRush GameState.incrementBalls]);
      apply Hsame; game_simpl; by rewrite ?Hstate, <- ?app_assoc.
Qed.
End SpinProperties.

Section SpinTheorems.
Variable random : nat -> Q.
Context {I : Type} {inputI : UserInput I}.
Implicit Types g : Game.t (I := I).

(** X15.  When the first draw of [causeLottery] (against the rush
    probability in a rush, the normal one otherwise) is a loss,
    [causeLottery] returns normally and changes nothing but the spinning
    flag, which it sets, the random source, and the output, which receives
    that one lottery notification: no ball is awarded and the state is the
    same. *)
Theorem causeLottery_lose g (l : Lose.t) :
  (Lottery.lottery random (spinProbability g) (Game.drawn g)).1
  = Ok (LotteryResult.Lose l) ->
  exists (slot : SlotOutput) (drawn' : nat),
    Game.causeLottery random g
    = (Ok tt, afterSpin g drawn' [spinNotification g (LotteryResult.Lose l) slot]).
Proof.
  intros Hlose.
  destruct (causeLottery_trace random g) as (r1 & slot1 & d1 & Hl & _ & Htrace).
  rewrite Hl in Hlose. injection Hlose as ->. by exists slot1, d1.
Qed.

(** X16.  Whatever the draws, [causeLottery] never takes a ball, never ends
    a session and never ends a rush: an uninitialized game stays
    uninitialized, [Normal b] stays or becomes
    [Rush (b + incrementalBalls) incrementalRush 1], and [Rush b rb n] stays
    or becomes [Rush (b + incrementalBalls) rb n] or
    [Rush (b + incrementalBalls) (rb + incrementalRush) (n + 1)]. *)
Theorem causeLottery_state g :
  let state' := Game.state (Game.causeLottery random g).2 in
  let ib := BallsConfig.incrementalBalls (Game.config g) in
  let ir := BallsConfig.incrementalRush (Game.config g) in
  match Game.state g with
  | Uninitialized => state' = Uninitialized
  | Normal b => state' = Normal b \/ state' = Rush (b + ib) ir 1
  | Rush b rb n =>
      state' = Rush b rb n
      \/ state' = Rush (b + ib) rb n
      \/ state' = Rush (b + ib) (rb + ir) (n + 1)
  end.
Proof.
  destruct (causeLottery_trace random g) as (r1 & slot1 & d1 & _ & _ & Htrace).
  cbv zeta in *.
  destruct r1 as [w|l], (Game.state g) as [|b|b rb n] eqn:Hstate;
    try (rewrite Htrace; simpl; auto; fail).
  destruct Htrace as [[_ ->]|(r2 & slot2 & d2 & _ & _ & ->)]; simpl; [auto|].
  destruct (LotteryResult.isWin r2); auto.
Qed.

(** X17.  [causeLottery] sends one or two notifications, all of them lottery
    notifications: first the one for its own draw ([lotteryRush] in a rush,
    [lotteryNormal] otherwise), and after it at most one
    [lotteryRushContinue], which is sent only in a rush and only after a
    win. *)
Theorem causeLottery_notifications g :
  exists (r1 : LotteryResultType) (slot1 : SlotOutput) (rest : list Notification),
    Game.output (Game.causeLottery random g).2
    = Game.output g ++ spinNotification g r1 slot1 :: rest
    /\ (rest = []
        \/ exists r2 slot2,
             rest = [OutLotteryRushContinue r2 slot2]
             /\ GameState.isRush (Game.state g) = true
             /\ LotteryResult.isWin r1 = true).
Proof.
  destruct (causeLottery_trace random g) as (r1 & slot1 & d1 & _ & _ & Htrace).
  cbv zeta in *. exists r1, slot1.
  destruct r1 as [w|l], (Game.state g) as [|b|b rb n] eqn:Hstate;
    try (exists []; rewrite Htrace; simpl; auto; fail).
  destruct Htrace as [[_ ->]|(r2 & slot2 & d2 & _ & _ & ->)]; simpl.
  - exists []. auto.
  - exists [OutLotteryRushContinue r2 slot2]. split; [done|]. right. eauto.
Qed.
End SpinTheorems.

(** A losing spin under the example configuration. *)
Lemma causeLottery_lose_witness :
  exists (slot : SlotOutput) (drawn' : nat),
    Game.causeLottery (constantRandom (99 # 100))
      (gameIn CONFIG_EXAMPLE (Normal 10) false)
    = (Ok tt,
       afterSpin (gameIn CONFIG_EXAMPLE (Normal 10) false) drawn'
         [spinNotification (gameIn CONFIG_EXAMPLE (Normal 10) false)
            (LotteryResult.Lose Lose.Default) slot]).
Proof.
  apply (causeLottery_lose (constantRandom (99 # 100))
           (gameIn CONFIG_EXAMPLE (Normal 10) false) Lose.Default).
  reflexivity.
Defined.

(* ====================================================================== *)
(** * Further properties: sessions *)
(* ====================================================================== *)

Section SessionProperties.
Variable random : nat -> Q.
Context {I : Type} {inputI : UserInput I}.
Implicit Types g : Game.t (I := I).













(** X19.  A launch-and-lottery flow whose launch is refused, because the
    reel is spinning or no session is active, does nothing at all: the error
    of the launch is thrown and the game is as it was, with no draw made and
    nothing sent. *)
Theorem launchBallFlow_blocked g (isLottery : bool) :
  Game.isSlotSpinning g = true \/ Game.state g = Uninitialized ->
  exists e, Game.execute random (LaunchBallFlow isLottery) g = (Throw e, g).
Proof.
  intros Hblocked. cbn [Game.execute]. unfold Game.launchBall. eff_unfold.
  destruct (Game.isSlotSpinning g); [eauto|].
  destruct Hblocked as [Hflag|Hstate]; [done|]. rewrite Hstate. simpl. eauto.
Qed.

(** X20.  A launch-and-lottery flow on the last ball ends the session and
    then still spins: the game is left uninitialized with the flag set and
    a [lotteryNormal] notification sent, and when that draw is a win the
    flow throws, the win being lost. *)
Theorem launchBallFlow_last_ball g :
  Game.isSlotSpinning g = false ->
  Game.state g = Normal 1 ->
  exists (r1 : LotteryResultType) (slot : SlotOutput) (drawn' : nat),
    (Lottery.lotteryNormal random (Game.lottery g) (Game.drawn g)).1 = Ok r1
    /\ Game.execute random (LaunchBallFlow true) g
       = (if LotteryResult.isWin r1
          then Throw (PlainError "Cannot trigger rush in uninitialized state")
          else Ok tt,
          afterSpin (Game.withState Uninitialized g) drawn' [OutLotteryNormal r1 slot]).
Proof.
  intros Hflag Hstate.
  destruct (causeLottery_trace random (Game.withState Uninitialized g))
    as (r1 & slot1 & d1 & Hl & _ & Htrace).
  cbv zeta in Htrace. exists r1, slot1, d1.
  split; [exact (f_equal fst Hl)|].
  cbn [Game.execute]. unfold Game.launchBall at 1. eff_unfold.
  rewrite Hflag, Hstate. cbn [GameState.launchBall].
  change (1 - 1 =? 0) with true. cbv beta iota.
  destruct r1; game_simpl; by rewrite Htrace.
Qed.
End SessionProperties.


(** A flow sent while the reel is spinning. *)
Lemma launchBallFlow_blocked_witness :
  exists e,
    Game.execute cyclingRandom (LaunchBallFlow true)
      (gameIn CONFIG_EXAMPLE (Normal 10) true)
    = (Throw e, gameIn CONFIG_EXAMPLE (Normal 10) true).
Proof.
  apply (launchBallFlow_blocked cyclingRandom
           (gameIn CONFIG_EXAMPLE (Normal 10) true) true).
  left. reflexivity.
Defined.

(** The last ball lands in the start hole and the draw wins. *)
Lemma launchBallFlow_last_ball_witness :
  exists (r1 : LotteryResultType) (slot : SlotOutput) (drawn' : nat),
    (Lottery.lotteryNormal cyclingRandom
       (Game.lottery (gameIn CONFIG_EXAMPLE (Normal 1) false)) 0%nat).1 = Ok r1
    /\ Game.execute cyclingRandom (LaunchBallFlow true)
         (gameIn CONFIG_EXAMPLE (Normal 1) false)
       = (if LotteryResult.isWin r1
          then Throw (PlainError "Cannot trigger rush in uninitialized state")
          else Ok tt,
          afterSpin (Game.withState Uninitialized (gameIn CONFIG_EXAMPLE (Normal 1) false))
                    drawn' [OutLotteryNormal r1 slot]).
Proof.
  apply (launchBallFlow_last_ball cyclingRandom
           (gameIn CONFIG_EXAMPLE (Normal 1) false));
    reflexivity.
Defined.

(* ====================================================================== *)
(** * Further properties: steps and commands *)
(* ====================================================================== *)

Lemma defaultsOf_none (sent : list Notification) :
  (forall t, OutDefault t ∉ sent) -> defaultsOf sent = [].
Proof.
  induction sent as [|n sent IH]; intros Hnone; [done|].
  unfold defaultsOf in *. simpl.
  destruct n as [t| | | | |];
    [exfalso; apply (Hnone t); by left | ..];
    simpl; apply IH; intros t Ht; apply (Hnone t); by right.
Qed.

Lemma defaultsOf_app (sent1 sent2 : list Notification) :
  defaultsOf (sent1 ++ sent2) = defaultsOf sent1 ++ defaultsOf sent2.
Proof. apply omap_app. Qed.

Section StepProperties.
Variable random : nat -> Q.
Context {I : Type} {inputI : UserInput I}.
Implicit Types g : Game.t (I := I).

(** X21.  How [runStepWithCommand] reads its argument.  [null] and the empty
    string are steps that do nothing; the string [FinishGame], like the
    [FinishGame] object, ends the loop and does not finish the session: in
    all four cases only [beforeState] changes.  The strings [LaunchBall],
    [CauseLottery] and [StartGame] act as the [Control] commands of those
    classes.  Every other string throws [Unknown command], again with only
    [beforeState] changed. *)
Theorem runStepWithCommand_reads g :
  let idle := Game.withBeforeState (Some (Game.state g)) g in
  Game.runStepWithCommand random None g = (Ok Continue, idle)
  /\ Game.runStepWithCommand random (Some (CommandString "")) g = (Ok Continue, idle)
  /\ Game.runStepWithCommand random (Some Command.FinishGame) g = (Ok Break, idle)
  /\ Game.runStepWithCommand random (Some FinishGameObject) g = (Ok Break, idle)
  /\ Game.runStepWithCommand random (Some (CommandString "LaunchBall")) g
     = Game.runStepWithCommand random (Some (Control LaunchBall)) g
  /\ Game.runStepWithCommand random (Some (CommandString "CauseLottery")) g
     = Game.runStepWithCommand random (Some (Control CauseLottery)) g
  /\ Game.runStepWithCommand random (Some (CommandString "StartGame")) g
     = Game.runStepWithCommand random (Some (Control StartGame)) g
  /\ (forall s, knownCommandString s = false ->
        Game.runStepWithCommand random (Some (CommandString s)) g
        = (Throw (PlainError ("Unknown command: " +:+ s)), idle)).
Proof.
  repeat split.
  intros s Hs. unfold knownCommandString in Hs.
  repeat (apply orb_false_iff in Hs as [Hs ?]).
  unfold Game.runStepWithCommand, Game.commandOfString. eff_unfold.
  by repeat match goal with H : String.eqb s _ = false |- _ => rewrite H; clear H end.
Qed.

(** X22.  A step given a [Control] command sends exactly one [default]
    notification when the command returns, after everything the command
    sent, with [before] the state at the start of the step and [after] the
    state at its end, and the step answers [continue]; when the command
    throws, the step throws the same error and sends no [default]. *)
Theorem runStepWithCommand_default_once (command : GameCommand) g :
  let started := Game.withBeforeState (Some (Game.state g)) g in
  let '(r, g') := Game.runStepWithCommand random (Some (Control command)) g in
  exists sent,
    Game.output g' = Game.output g ++ sent
    /\ match r with
       | Ok step =>
           step = Continue
           /\ (Game.execute random command started).1 = Ok tt
           /\ defaultsOf sent = [mkTransition (Some (Game.state g)) (Game.state g')]
           /\ last sent
              = Some (OutDefault (mkTransition (Some (Game.state g)) (Game.state g')))
       | Throw e =>
           (Game.execute random command started).1 = Throw e
           /\ defaultsOf sent = []
       end.
Proof.
  intros started.
  pose proof (execute_noDefaultSent random command started)
    as [Hbefore (new & Hout & Hnone)].
  unfold Game.runStepWithCommand, Game.notify. eff_unfold. fold started.
  destruct (Game.execute random command started) as [[[]|e] g2]; game_simpl.
  - exists (new ++ [OutDefault (mkTransition (Game.beforeState g2) (Game.state g2))]).
    rewrite Hbefore. subst started. game_simpl.
    split; [by rewrite Hout, app_assoc|]. split; [done|]. split; [done|].
    split; [|by rewrite last_snoc].
    by rewrite defaultsOf_app, defaultsOf_none.
  - exists new. split; [done|]. split; [done|]. by apply defaultsOf_none.
Qed.
End StepProperties.

(** A string that is no command. *)
Lemma runStepWithCommand_reads_witness :
  Game.runStepWithCommand cyclingRandom (Some (CommandString "launch"))
    (gameIn CONFIG_EXAMPLE (Normal 10) false)
  = (Throw (PlainError "Unknown command: launch"),
     Game.withBeforeState (Some (Normal 10)) (gameIn CONFIG_EXAMPLE (Normal 10) false)).
Proof.
  apply (runStepWithCommand_reads cyclingRandom
           (gameIn CONFIG_EXAMPLE (Normal 10) false)).
  reflexivity.
Defined.

(* ====================================================================== *)
(** * Further properties: input collaborators *)
(* ====================================================================== *)

Lemma addCommands_foldl (cs acc : list CommandType) (i : nat) :
  foldl (fun input c => JsInput.addCommand c input) (JsInput.mk acc i) cs
  = JsInput.mk (acc ++ cs) i.
Proof.
  revert acc. induction cs as [|c cs IH]; intros acc; simpl.
  - by rewrite app_nil_r.
  - unfold JsInput.addCommand at 2. simpl. by rewrite IH, <- app_assoc.
Qed.

Lemma pullCommands_queued (cs : list CommandType) (n i : nat) :
  (i + n <= length cs)%nat ->
  pullCommands n (JsInput.mk cs i)
  = (Some <$> take n (drop i cs), JsInput.mk cs (i + n)).
Proof.
  revert i. induction n as [|n IH]; intros i Hin.
  - simpl. by rewrite Nat.add_0_r.
  - destruct (lookup_lt_is_Some_2 cs i) as [c Hc]; [lia|].
    cbn [pullCommands]. unfold JsInput.waitForInput. simpl. rewrite Hc.
    rewrite IH by lia.
    rewrite (drop_S cs c i Hc). simpl. do 2 f_equal. lia.
Qed.

Lemma pullCommands_exhausted (cs : list CommandType) (n i : nat) :
  (length cs <= i)%nat ->
  pullCommands n (JsInput.mk cs i) = (replicate n None, JsInput.mk cs i).
Proof.
  intros Hi. induction n as [|n IH]; [done|].
  cbn [pullCommands]. unfold JsInput.waitForInput. simpl.
  rewrite (lookup_ge_None_2 cs i) by lia. by rewrite IH.
Qed.

Lemma pullCommands_add (n k : nat) (input : JsInput.t) :
  pullCommands (n + k) input
  = let '(first, input') := pullCommands n input in
    let '(rest, input'') := pullCommands k input' in
    (first ++ rest, input'').
Proof.
  revert input. induction n as [|n IH]; intros input; simpl.
  - by destruct (pullCommands k input).
  - destruct (JsInput.waitForInput input) as [c input1].
    rewrite IH. destruct (pullCommands n input1) as [first input2].
    by destruct (pullCommands k input2).
Qed.

(** X23.  [JsInput] is a queue: after [reset], the commands added with
    [addCommand] come back from [waitForInput] in the order they were added,
    each once, and from then on every call answers [null] and leaves the
    input as it is. *)
Theorem JsInput_fifo (input : JsInput.t) (cs : list CommandType) (k : nat) :
  pullCommands (length cs + k)
    (foldl (fun input c => JsInput.addCommand c input) (JsInput.reset input) cs)
  = ((Some <$> cs) ++ replicate k None, JsInput.mk cs (length cs)).
Proof.
  unfold JsInput.reset. rewrite addCommands_foldl, app_nil_l, pullCommands_add.
  rewrite pullCommands_queued by (simpl; lia).
  rewrite pullCommands_exhausted by (simpl; lia).
  by rewrite drop_0, firstn_all.
Qed.

Section RunProperties.
Variable random : nat -> Q.
Implicit Types g : Game.t (I := JsInput.t).

(** X24.  Driven by a [JsInput] whose queue is used up, [run] never ends:
    however many iterations it is given it is still looping, and the game
    it loops on keeps its state, its output and its input. *)
Theorem run_loops_on_empty_queue g (fuel : nat) :
  (length (JsInput.commands (Game.input g)) <= JsInput.currentIndex (Game.input g))%nat ->
  exists g',
    Game.run random fuel g = (Ok false, g')
    /\ Game.state g' = Game.state g
    /\ Game.output g' = Game.output g
    /\ Game.input g' = Game.input g
    /\ Game.isSlotSpinning g' = Game.isSlotSpinning g.
Proof.
  revert g. induction fuel as [|fuel IH]; intros g Hempty.
  - by exists g.
  - cbn [Game.run]. unfold Game.runStep, Game.runStepWithCommand. eff_unfold.
    unfold waitForInput, JsInput_UserInput, JsInput.waitForInput.
    rewrite (lookup_ge_None_2 _ _ Hempty). game_simpl.
    exact (IH (Game.withBeforeState (Some (Game.state g))
                 (Game.withInput (Game.input g) g)) Hempty).
Qed.
End RunProperties.

(** Three commands in, five calls out. *)
Lemma JsInput_fifo_example :
  pullCommands 5
    (JsInput.addCommand (CommandString "LaunchBall")
       (JsInput.addCommand (Control CauseLottery)
          (JsInput.addCommand (Control StartGame) (JsInput.reset exampleInput))))
  = ([Some (Control StartGame); Some (Control CauseLottery);
      Some (CommandString "LaunchBall"); None; None],
     JsInput.mk [Control StartGame; Control CauseLottery; CommandString "LaunchBall"]
                3%nat).
Proof.
  exact (JsInput_fifo exampleInput
           [Control StartGame; Control CauseLottery; CommandString "LaunchBall"] 2).
Qed.

(** A game without queued commands. *)
Lemma run_loops_on_empty_queue_witness :
  exists g',
    Game.run cyclingRandom 50 (gameIn CONFIG_EXAMPLE (Normal 10) false) = (Ok false, g')
    /\ Game.state g' = Normal 10
    /\ Game.output g' = []
    /\ Game.input g' = JsInput.mk [] 0%nat
    /\ Game.isSlotSpinning g' = false.
Proof.
  apply (run_loops_on_empty_queue cyclingRandom
           (gameIn CONFIG_EXAMPLE (Normal 10) false) 50).
  simpl. lia.
Defined.

Lemma knownToken_false (cmd : string) :
  knownToken cmd = false ->
  String.eqb cmd "s" = false /\ String.eqb cmd "l" = false
  /\ String.eqb cmd "" = false /\ String.eqb cmd "q" = false
  /\ String.eqb cmd "q!" = false.
Proof.
  unfold knownToken. intros H.
  repeat (apply orb_false_iff in H as [H ?]). done.
Qed.

Section CLIProperties.
Variable random : nat -> Q.

Lemma scan_skips (producer : LaunchBallFlowProducer.t) (skipped rest : list string)
  (index drawn : nat) :
  Forall (fun cmd => knownToken cmd = false) skipped ->
  CLIInput.scan random producer (skipped ++ rest) index drawn
  = CLIInput.scan random producer rest (index + length skipped) drawn.
Proof.
  intros Hskipped. revert index.
  induction Hskipped as [|cmd skipped Hcmd _ IH]; intros index.
  - simpl. by rewrite Nat.add_0_r.
  - apply knownToken_false in Hcmd as (Hs & Hl & He & Hq & Hq').
    cbn [app CLIInput.scan]. rewrite Hs, Hl, He, Hq, Hq'. simpl.
    rewrite IH. f_equal. simpl. lia.
Qed.

(** X25.  [CLIInput.waitForInput] never answers [null].  It skips the tokens
    it does not know: when only such tokens are left, or none, it answers
    the [FinishGame] sentinel, makes no draw and leaves the index at the end
    of the queue; otherwise it answers for the first known token, leaves the
    index just after it, and makes a draw only for a launch ([l] or the
    empty token), whose flow triggers the lottery when the draw is below the
    start-hole probability. *)
Theorem CLIInput_waitForInput (self : CLIInput.t) (skipped : list string)
  (drawn : nat) :
  let producer := CLIInput.launchBallFlowProducer self in
  let index := CLIInput.currentIndex self in
  let left_at i := CLIInput.mk producer (CLIInput.commands self) i in
  Forall (fun cmd => knownToken cmd = false) skipped ->
  (drop index (CLIInput.commands self) = skipped ->
   CLIInput.waitForInput random self drawn
   = (Ok (Command.FinishGame, left_at (index + length skipped)%nat), drawn))
  /\ (forall tok rest,
        drop index (CLIInput.commands self) = skipped ++ tok :: rest ->
        knownToken tok = true ->
        CLIInput.waitForInput random self drawn
        = (Ok (if String.eqb tok "s" then Control StartGame
               else if String.eqb tok "l" || String.eqb tok "" then
                 Control (LaunchBallFlow
                            (Qltb (random drawn)
                                  (LaunchBallFlowProducer.startHoleProbability producer)))
               else if String.eqb tok "q" then Control FinishGameCommandImpl
               else Command.FinishGame,
               left_at (index + length skipped + 1)%nat),
           if String.eqb tok "s" then drawn
           else if String.eqb tok "l" || String.eqb tok "" then S drawn
           else drawn)).
Proof.
  intros producer index left_at Hskipped. unfold CLIInput.waitForInput.
  fold producer. fold index. split.
  - intros ->. rewrite <- (app_nil_r skipped) at 1.
    eff_unfold. by rewrite scan_skips.
  - intros tok rest -> Hknown. eff_unfold. rewrite scan_skips by done.
    cbn [CLIInput.scan]. unfold LaunchBallFlowProducer.produce, Lottery.mathRandom.
    eff_unfold. unfold knownToken in Hknown.
    replace (S (index + length skipped)) with (index + length skipped + 1)%nat by lia.
    destruct (String.eqb tok "s"); [done|].
    destruct (String.eqb tok "l" || String.eqb tok "") eqn:Hl; [done|].
    apply orb_false_iff in Hl as [Hl He]. rewrite Hl, He in Hknown. simpl in Hknown.
    destruct (String.eqb tok "q"); [done|]. simpl in Hknown. by rewrite Hknown.
Qed.
End CLIProperties.

Section ProducerProperties.
Variable random : nat -> Q.
Hypothesis random_unit : forall i, (0 <= random i < 1)%Q.

End ProducerProperties.

Section SessionRoundTrip.
Context {I : Type} {inputI : UserInput I}.
Implicit Types g : Game.t (I := I).

(** X27.  The life of a session.  On an uninitialized game [start] succeeds
    with [Normal initBalls] and a second [start] throws
    [AlreadyStartedError] changing nothing; [finish] then succeeds, leaves
    the game uninitialized with [startGame] and [finishGame] notifications
    for [Normal initBalls] sent in that order, and a second [finish] throws
    [UninitializedError] changing nothing. *)
Theorem session_round_trip g :
  Game.state g = Uninitialized ->
  let opened := Normal (BallsConfig.initBalls (Game.config g)) in
  exists g1 g2,
    Game.start g = (Ok tt, g1)
    /\ Game.state g1 = opened
    /\ Game.start g1 = (Throw AlreadyStartedError, g1)
    /\ Game.finish g1 = (Ok tt, g2)
    /\ Game.state g2 = Uninitialized
    /\ Game.output g2 = Game.output g ++ [OutStartGame opened; OutFinishGame opened]
    /\ Game.finish g2 = (Throw UninitializedError, g2)
    /\ Game.finish g = (Throw UninitializedError, g).
Proof.
  intros Hstate opened.
  unfold Game.start, Game.finish, Game.notify. eff_unfold. rewrite Hstate. simpl.
  eexists _, _. repeat split. simpl. by rewrite <- app_assoc.
Qed.
End SessionRoundTrip.

(** The demo's first tokens, with one the input does not know. *)
Lemma CLIInput_waitForInput_witness :
  CLIInput.waitForInput cyclingRandom
    (CLIInput.mk (LaunchBallFlowProducer.mk START_HOLE_PROBABILITY_EXAMPLE)
                 ["s"; "x"; "l"; "q"]%string 1%nat) 0%nat
  = (Ok (Control (LaunchBallFlow true),
         CLIInput.mk (LaunchBallFlowProducer.mk START_HOLE_PROBABILITY_EXAMPLE)
                     ["s"; "x"; "l"; "q"]%string 3%nat), 1%nat)
  /\ CLIInput.waitForInput cyclingRandom
       (CLIInput.mk (LaunchBallFlowProducer.mk START_HOLE_PROBABILITY_EXAMPLE)
                    ["s"; "x"; "y"]%string 1%nat) 0%nat
     = (Ok (Command.FinishGame,
            CLIInput.mk (LaunchBallFlowProducer.mk START_HOLE_PROBABILITY_EXAMPLE)
                        ["s"; "x"; "y"]%string 3%nat), 0%nat).
Proof.
  split.
  - apply (proj2 (CLIInput_waitForInput cyclingRandom
                    (CLIInput.mk (LaunchBallFlowProducer.mk START_HOLE_PROBABILITY_EXAMPLE)
                                 ["s"; "x"; "l"; "q"]%string 1%nat)
                    ["x"%string] 0%nat ltac:(by repeat constructor))
                 "l"%string ["q"%string]);
      reflexivity.
  - apply (proj1 (CLIInput_waitForInput cyclingRandom
                    (CLIInput.mk (LaunchBallFlowProducer.mk START_HOLE_PROBABILITY_EXAMPLE)
                                 ["s"; "x"; "y"]%string 1%nat)
                    ["x"; "y"]%string 0%nat ltac:(by repeat constructor)));
      reflexivity.
Defined.


(** A fresh game of the example configuration, opened and closed. *)
Lemma session_round_trip_witness :
  exists g1 g2,
    Game.start (gameIn CONFIG_EXAMPLE Uninitialized false) = (Ok tt, g1)
    /\ Game.state g1 = Normal 1000
    /\ Game.start g1 = (Throw AlreadyStartedError, g1)
    /\ Game.finish g1 = (Ok tt, g2)
    /\ Game.state g2 = Uninitialized
    /\ Game.output g2 = [OutStartGame (Normal 1000); OutFinishGame (Normal 1000)]
    /\ Game.finish g2 = (Throw UninitializedError, g2)
    /\ Game.finish (gameIn CONFIG_EXAMPLE Uninitialized false)
       = (Throw UninitializedError, gameIn CONFIG_EXAMPLE Uninitialized false).
Proof.
  apply (session_round_trip (gameIn CONFIG_EXAMPLE Uninitialized false)).
  reflexivity.
Defined.



(** A draw of the example's normal lottery on the cycling source: the first
    number, 0, is below 0.16 and the second, 0.1, is below 0.3. *)
Lemma lottery_outcome_witness :
  Lottery.lottery cyclingRandom (SlotProbability.mk (16 # 100) (3 # 10) (15 # 100)) 0%nat
  = (Ok (LotteryResult.Win Win.FakeWin), 2%nat).
Proof.
  destruct (lottery_outcome cyclingRandom
              (SlotProbability.mk (16 # 100) (3 # 10) (15 # 100)) 0%nat)
    as (result & -> & _ & Hfake & _).
  f_equal. f_equal. apply Hfake. split; reflexivity.
Defined.
